(** * NeuroMask: procedural mask placement and AR binding

    A shallow embedding of [utils/math.ts] (surface model, zone mask, mesh
    snapping, point-cloud normals), of the [MaskInstances] component
    (placement regeneration and the per-frame binding logic), of the capture
    handler of [FaceScanner], of the point cloud of [GhostHead] and of the
    animation law of [App], followed by the properties of the specification
    that were checked against it and by further properties of the code.

    Numbers.  A JavaScript [number] is modelled as a real number of the
    standard library: arithmetic is exact, and there is neither rounding nor
    NaN nor an infinite value.  [Infinity], where the source uses it as the
    start of a minimum search, is modelled by [None].  A [Float32Array] is a
    list of reals.  Loop counters and array indices are natural numbers; an
    index that the source initialises with [-1] is an integer. *)

From Stdlib Require Import Reals Lra Lia List ZArith String Bool Arith.
From Stdlib Require Import Permutation Sorted.
Import ListNotations.
Local Open Scope R_scope.

(** * Part I: the program *)

(** ** JavaScript comparisons and [Math] functions on reals *)

Definition Rltb (x y : R) : bool := if Rlt_dec x y then true else false.

Notation "x <? y" := (Rltb x y) (at level 70, no associativity) : R_scope.
Notation "x >? y" := (Rltb y x) (at level 70, no associativity) : R_scope.

(** [Math.floor], as a real. *)
Definition floor (x : R) : R := IZR (Zfloor x).

(** [for (let i = start; i < bound; i += step)] with a numeric bound.  The
    fuel bounds the number of iterations; [forLoop_seq] and
    [forLoop_fuel_enough] in Part II show that the fuel each caller passes
    runs its loop to the end. *)
Fixpoint forLoop {St : Type} (fuel i step : nat) (bound : R)
    (body : nat -> St -> St) (s : St) : St :=
  match fuel with
  | O => s
  | S fuel' =>
      if INR i <? bound
      then forLoop fuel' (i + step) step bound body (body i s)
      else s
  end.

(** A minimum search starts from [Infinity]: [None] is larger than every
    real. *)
Definition ltInfinity (d : R) (m : option R) : bool :=
  match m with
  | None => true
  | Some x => d <? x
  end.

(** An uncaught [TypeError] (a property read on [undefined]) aborts the
    handler that raised it. *)
Inductive Result (A : Type) : Type :=
| Ok (a : A)
| TypeError.

Arguments Ok {A} a.
Arguments TypeError {A}.

Definition bind {A B : Type} (r : Result A) (f : A -> Result B) : Result B :=
  match r with
  | Ok a => f a
  | TypeError => TypeError
  end.

Notation "x <- r ;; k" := (bind r (fun x => k))
  (at level 61, r at next level, right associativity).

(** [array[i]]: [undefined] outside the array, here [None]. *)
Definition lookupZ {A : Type} (l : list A) (i : Z) : option A :=
  if (i <? 0)%Z then None else nth_error l (Z.to_nat i).

(** A property read on the result of an array access. *)
Definition defined {A : Type} (o : option A) : Result A :=
  match o with
  | Some a => Ok a
  | None => TypeError
  end.

(** ** [THREE.Vector3] *)

Record Vector3 : Type := mkVector3 { vx : R; vy : R; vz : R }.

Module Vec.

Definition zero : Vector3 := mkVector3 0 0 0.

Definition setY (a : Vector3) (y : R) : Vector3 := mkVector3 (vx a) y (vz a).

Definition addVectors (a b : Vector3) : Vector3 :=
  mkVector3 (vx a + vx b) (vy a + vy b) (vz a + vz b).

Definition subVectors (a b : Vector3) : Vector3 :=
  mkVector3 (vx a - vx b) (vy a - vy b) (vz a - vz b).

Definition multiplyScalar (a : Vector3) (s : R) : Vector3 :=
  mkVector3 (vx a * s) (vy a * s) (vz a * s).

Definition divideScalar (a : Vector3) (s : R) : Vector3 :=
  multiplyScalar a (1 / s).

Definition negate (a : Vector3) : Vector3 :=
  mkVector3 (- vx a) (- vy a) (- vz a).

Definition dot (a b : Vector3) : R :=
  vx a * vx b + vy a * vy b + vz a * vz b.

Definition crossVectors (a b : Vector3) : Vector3 :=
  mkVector3 (vy a * vz b - vz a * vy b)
            (vz a * vx b - vx a * vz b)
            (vx a * vy b - vy a * vx b).

Definition length (a : Vector3) : R :=
  sqrt (vx a * vx a + vy a * vy a + vz a * vz a).

Definition distanceToSquared (a b : Vector3) : R :=
  let dx := vx a - vx b in
  let dy := vy a - vy b in
  let dz := vz a - vz b in
  dx * dx + dy * dy + dz * dz.

(** [normalize] is [divideScalar (length () || 1)]: a zero vector stays
    zero. *)
Definition normalize (a : Vector3) : Vector3 :=
  let l := length a in
  divideScalar a (if Req_dec_T l 0 then 1 else l).

End Vec.

(** ** utils/math.ts: the surface model *)

Definition mapRange (value inMin inMax outMin outMax : R) : R :=
  ((value - inMin) * (outMax - outMin)) / (inMax - inMin) + outMin.

Definition getFacePoint (u v headWidthFactor : R) : Vector3 :=
  let w := headWidthFactor * 0.55 in
  let h := 1.10 in
  let d := 1.00 in
  let theta := mapRange u (-1) 1 (- PI / 1.6) (PI / 1.6) in
  let phi := mapRange v (-1) 1 (PI / 2.5) (- PI / 3) in
  let x := w * sin theta * cos (phi * 0.5) in
  let y := - h * sin phi in
  let z := d * cos theta * cos phi in
  (* 1. Nose Bridge *)
  let noseDist := sqrt (u ^ 2 + (v - (-0.15)) ^ 2) in
  let z :=
    if noseDist <? 0.3
    then z + 0.28 * (Rmax 0 (1 - noseDist / 0.3)) ^ 2
    else z in
  (* 2. Brow Ridge *)
  let browY := 0.25 in
  let browDist := Rabs (v - browY) in
  let z :=
    if (browDist <? 0.2) && (Rabs u <? 0.7)
    then z + 0.08 * cos (browDist * PI / 0.4)
    else z in
  (* 3. Cheekbones *)
  let '(x, z) :=
    if (v <? 0) && (v >? -0.5)
    then
      let cheekDist := Rabs (Rabs u - 0.55) in
      if cheekDist <? 0.3
      then (x + (if u >? 0 then 1 else -1) * 0.08 * cos (cheekDist * PI / 0.6),
            z + 0.05 * cos (cheekDist * PI / 0.6))
      else (x, z)
    else (x, z) in
  (* 4. Chin definition *)
  let '(x, z) := if v <? -0.7 then (x * 0.8, z + 0.05) else (x, z) in
  mkVector3 x y z.

(** ** The surface model as the specification words it (section 4.1)

    These definitions follow the specification, not the source: a linear
    interpolation between two intervals, the mathematical sign function and
    four sculpting terms composed in the stated order. *)

Module SurfaceSpec.

Definition lerp (t a b c d : R) : R := c + (t - a) / (b - a) * (d - c).

Definition sign (u : R) : R :=
  if 0 <? u then 1 else if u <? 0 then -1 else 0.

Definition norm2 (a b : R) : R := sqrt (a * a + b * b).

Definition baseEllipsoid (u v headWidthFactor : R) : Vector3 :=
  let w := headWidthFactor * 0.55 in
  let theta := lerp u (-1) 1 (- (PI / 1.6)) (PI / 1.6) in
  let phi := lerp v (-1) 1 (PI / 2.5) (- (PI / 3)) in
  mkVector3 (w * (sin theta * cos (phi * 0.5)))
            (- (1.10 * sin phi))
            (1.00 * (cos theta * cos phi)).

Definition noseBridge (u v : R) (p : Vector3) : Vector3 :=
  let dist := norm2 u (v + 0.15) in
  if dist <? 0.3
  then mkVector3 (vx p) (vy p)
         (vz p + 0.28 * (Rmax 0 (1 - dist / 0.3) * Rmax 0 (1 - dist / 0.3)))
  else p.

Definition browRidge (u v : R) (p : Vector3) : Vector3 :=
  if (Rabs (v - 0.25) <? 0.2) && (Rabs u <? 0.7)
  then mkVector3 (vx p) (vy p)
         (vz p + 0.08 * cos (Rabs (v - 0.25) * (PI / 0.4)))
  else p.

Definition cheekbones (u v : R) (p : Vector3) : Vector3 :=
  let cheekDist := Rabs (Rabs u - 0.55) in
  if (-0.5 <? v) && (v <? 0) && (cheekDist <? 0.3)
  then mkVector3 (vx p + sign u * 0.08 * cos (cheekDist * (PI / 0.6)))
                 (vy p)
                 (vz p + 0.05 * cos (cheekDist * (PI / 0.6)))
  else p.

Definition chin (v : R) (p : Vector3) : Vector3 :=
  if v <? -0.7 then mkVector3 (0.8 * vx p) (vy p) (vz p + 0.05) else p.

Definition evaluate (u v headWidthFactor : R) : Vector3 :=
  chin v (cheekbones u v (browRidge u v (noseBridge u v
    (baseEllipsoid u v headWidthFactor)))).

End SurfaceSpec.

(** ** utils/math.ts: the zone mask *)

Inductive ZoneType : Type := Full | Domino | Respirator | Jaw.

Definition checkZone (u v : R) (zone : ZoneType) : bool :=
  match zone with
  | Full => true
  | Domino =>
      if (v >? 0.1) && (v <? 0.6) && (Rabs u <? 0.85)
      then
        let dLeft := sqrt ((u - (-0.4)) ^ 2 + (v - 0.35) ^ 2) in
        let dRight := sqrt ((u - 0.4) ^ 2 + (v - 0.35) ^ 2) in
        if (dLeft <? 0.15) || (dRight <? 0.15) then false else true
      else false
  | Respirator => (v <? -0.1) && (v >? -0.8) && (Rabs u <? 0.6)
  | Jaw => (v <? -0.4) || ((Rabs u >? 0.7) && (v <? 0))
  end.

(** ** utils/math.ts: mesh snapping *)

(** The operations of [THREE.Matrix4] and [THREE.Matrix3] that [snapToMesh]
    applies to the world transform of the target mesh.  They belong to the
    rendering library and are kept abstract. *)
Class WorldTransform (Matrix4 : Type) : Type := {
  Matrix3 : Type;
  applyMatrix4 : Vector3 -> Matrix4 -> Vector3;
  getNormalMatrix : Matrix4 -> Matrix3;
  applyMatrix3 : Vector3 -> Matrix3 -> Vector3
}.

(** The identity world transform, the only one the application passes
    ([new THREE.Matrix4().identity()]). *)
#[export] Instance identityTransform : WorldTransform unit := {
  Matrix3 := unit;
  applyMatrix4 := fun v _ => v;
  getNormalMatrix := fun _ => tt;
  applyMatrix3 := fun v _ => v
}.

(** A [THREE.BufferGeometry] as [snapToMesh] reads it: the [position]
    attribute and the optional [normal] attribute, one vector per vertex. *)
Record BufferGeometry : Type := mkGeometry {
  attr_position : list Vector3;
  attr_normal : option (list Vector3)
}.

(** [fromBufferAttribute]; an index past the end reads the zero vector. *)
Definition fromBufferAttribute (attr : list Vector3) (i : nat) : Vector3 :=
  nth i attr Vec.zero.

Record SurfaceSample : Type := mkSample { pos : Vector3; norm : Vector3 }.

Section SnapToMesh.

Context {Matrix4 : Type} `{WorldTransform Matrix4}.

(** One iteration of the search; the state is [minDistanceSq] and
    [bestIndex]. *)
Definition snapStep (target : Vector3) (posAttribute : list Vector3)
    (matrixWorld : Matrix4) (i : nat) (st : option R * Z) : option R * Z :=
  let tempPos := fromBufferAttribute posAttribute i in
  let worldPos := applyMatrix4 tempPos matrixWorld in
  let dSq := Vec.distanceToSquared target worldPos in
  if ltInfinity dSq (fst st) then (Some dSq, Z.of_nat i) else st.

Definition snapToMesh (target : Vector3) (geometry : BufferGeometry)
    (matrixWorld : Matrix4) : SurfaceSample :=
  let posAttribute := attr_position geometry in
  let normalAttribute := attr_normal geometry in
  let count := List.length posAttribute in
  let step := Z.to_nat (Zfloor (Rmax 1 (INR count / 2000))) in
  let '(_, bestIndex) :=
    forLoop count 0 step (INR count)
      (snapStep target posAttribute matrixWorld) (None, (-1)%Z) in
  if negb (bestIndex =? -1)%Z
  then
    let finalPos :=
      applyMatrix4 (fromBufferAttribute posAttribute (Z.to_nat bestIndex))
        matrixWorld in
    let finalNorm :=
      match normalAttribute with
      | Some normals =>
          let n := fromBufferAttribute normals (Z.to_nat bestIndex) in
          let normalMatrix := getNormalMatrix matrixWorld in
          Vec.normalize (applyMatrix3 n normalMatrix)
      | None => Vec.normalize finalPos
      end in
    mkSample finalPos finalNorm
  else mkSample target (Vec.normalize target).

End SnapToMesh.

(** ** utils/math.ts: point-cloud normals *)

Record Neighbor : Type := mkNeighbor { idx : nat; dist : R }.

(** [Array.prototype.sort] with the comparator [a.dist - b.dist]: a stable
    sort by increasing distance. *)
Fixpoint insertNeighbor (a : Neighbor) (l : list Neighbor) : list Neighbor :=
  match l with
  | [] => [a]
  | b :: l' =>
      if dist b <? dist a then b :: insertNeighbor a l' else a :: b :: l'
  end.

Definition sortNeighbors (l : list Neighbor) : list Neighbor :=
  fold_right insertNeighbor [] l.

(** [positions[i]]; the function is only applied to arrays that hold three
    coordinates per point, where every read is inside the array. *)
Definition nthR (positions : list R) (i : nat) : R := nth i positions 0.

Definition pointAt (positions : list R) (i : nat) : Vector3 :=
  mkVector3 (nthR positions (i * 3)) (nthR positions (i * 3 + 1))
            (nthR positions (i * 3 + 2)).

(** A write into a typed array; an index past the end is ignored. *)
Fixpoint writeAt (l : list R) (i : nat) (x : R) : list R :=
  match l, i with
  | [], _ => []
  | _ :: l', O => x :: l'
  | y :: l', S i' => y :: writeAt l' i' x
  end.

Definition writeVector (normals : list R) (i : nat) (n : Vector3) : list R :=
  writeAt (writeAt (writeAt normals (i * 3) (vx n)) (i * 3 + 1) (vy n))
          (i * 3 + 2) (vz n).

Definition neighborStep (positions : list R) (k i : nat) (p1 : Vector3)
    (j : nat) (neighbors : list Neighbor) : list Neighbor :=
  if (i =? j)%nat then neighbors
  else
    let p2 := pointAt positions j in
    let d := Vec.distanceToSquared p1 p2 in
    if (List.length neighbors <? k)%nat
    then sortNeighbors (neighbors ++ [mkNeighbor j d])
    else if d <? dist (last neighbors (mkNeighbor 0 0))
    then sortNeighbors (removelast neighbors ++ [mkNeighbor j d])
    else neighbors.

Definition normalStep (positions : list R) (count : R) (i : nat)
    (normals : list R) : list R :=
  let k := 6%nat in
  let p1 := pointAt positions i in
  let neighbors :=
    forLoop (List.length positions) 0 1 count
      (neighborStep positions k i p1) [] in
  match neighbors with
  | n1 :: n2 :: _ =>
      let p2 := pointAt positions (idx n1) in
      let p3 := pointAt positions (idx n2) in
      let v1 := Vec.subVectors p2 p1 in
      let v2 := Vec.subVectors p3 p1 in
      let n := Vec.normalize (Vec.crossVectors v1 v2) in
      let n := if Vec.dot n p1 <? 0 then Vec.negate n else n in
      writeVector normals i n
  | _ =>
      (* Fallback to spherical *)
      let n := Vec.normalize p1 in
      writeVector normals i n
  end.

Definition computePointCloudNormals (positions : list R) : list R :=
  let count := INR (List.length positions) / 3 in
  let normals := repeat 0 (List.length positions) in
  forLoop (List.length positions) 0 1 count (normalStep positions count)
    normals.

(** A point cloud as the flat coordinate array the function receives. *)
Definition flatten (pts : list Vector3) : list R :=
  flat_map (fun p => [vx p; vy p; vz p]) pts.

(** ** types.ts *)

Inductive DistributionType : Type := Grid | Spiral | Random.
Inductive ShapeType : Type := Cone | Sphere | Box | Torus | Cylinder.
Inductive ColorMode : Type := Normal | Depth | Solid.

Record MaskConfig : Type := mkConfig {
  zone : ZoneType;
  offset : R;
  headWidth : R;
  distribution : DistributionType;
  density : nat;
  symmetry : bool;
  shape : ShapeType;
  scaleBase : R;
  scaleVar : R;
  colorMode : ColorMode;
  primaryColor : string;
  roughness : R;
  metalness : R
}.

(** ** The rendering library's objects, as [MaskInstances] uses them

    A [THREE.Color] is known by the setter that wrote it last and by the
    arguments of that call; a [THREE.Quaternion] by the unit vectors it was
    built from; an instance matrix by the position, rotation and scale that
    [Object3D.updateMatrix] composed into it. *)

Inductive Color : Type :=
| ColorStyle (style : string)
| ColorHSL (h s l : R)
| ColorRGB (r g b : R).

Inductive Quaternion : Type :=
| QuatIdentity
| FromUnitVectors (vFrom vTo : Vector3).

Record InstanceMatrix : Type := compose {
  m_position : Vector3;
  m_quaternion : Quaternion;
  m_scale : Vector3
}.

Record Object3D : Type := mkObject3D {
  position : Vector3;
  quaternion : Quaternion;
  scale : Vector3;
  matrix : InstanceMatrix
}.

Definition setPosition (o : Object3D) (p : Vector3) : Object3D :=
  mkObject3D p (quaternion o) (scale o) (matrix o).

Definition setRotationFromQuaternion (o : Object3D) (q : Quaternion)
    : Object3D :=
  mkObject3D (position o) q (scale o) (matrix o).

Definition setScale (o : Object3D) (s : Vector3) : Object3D :=
  mkObject3D (position o) (quaternion o) s (matrix o).

Definition updateMatrix (o : Object3D) : Object3D :=
  mkObject3D (position o) (quaternion o) (scale o)
    (compose (position o) (quaternion o) (scale o)).

(** One entry of [userData.instances]. *)
Record InstanceData : Type := mkInstance {
  inst_position : Vector3;
  inst_normal : Vector3;
  inst_scale : R;
  inst_color : Color;
  inst_matrix : InstanceMatrix
}.

(** The [THREE.InstancedMesh] behind [meshRef]: the per-slot matrix and
    colour buffers, the realized [count] and [userData.instances]
    ([None] while it was never assigned). *)
Record InstancedMesh : Type := mkMesh {
  instanceMatrix : nat -> InstanceMatrix;
  instanceColor : nat -> Color;
  count : nat;
  userData_instances : option (list InstanceData)
}.

Definition setMatrixAt (m : InstancedMesh) (i : nat) (x : InstanceMatrix)
    : InstancedMesh :=
  mkMesh (fun k => if (k =? i)%nat then x else instanceMatrix m k)
         (instanceColor m) (count m) (userData_instances m).

Definition setColorAt (m : InstancedMesh) (i : nat) (c : Color)
    : InstancedMesh :=
  mkMesh (instanceMatrix m)
         (fun k => if (k =? i)%nat then c else instanceColor m k)
         (count m) (userData_instances m).

Definition setCount (m : InstancedMesh) (n : nat) : InstancedMesh :=
  mkMesh (instanceMatrix m) (instanceColor m) n (userData_instances m).

Definition setInstances (m : InstancedMesh) (l : list InstanceData)
    : InstancedMesh :=
  mkMesh (instanceMatrix m) (instanceColor m) (count m) (Some l).

(** [userData.instances.push]; the array exists whenever the regeneration
    pushes, since it assigns a fresh one first. *)
Definition pushInstance (m : InstancedMesh) (x : InstanceData)
    : InstancedMesh :=
  match userData_instances m with
  | Some l => setInstances m (l ++ [x])
  | None => m
  end.

(** An entry of the bind pose kept in [anchorsRef]. *)
Record Anchor : Type := mkAnchor {
  landmarkIndex : Z;
  anchorOffset : Vector3;
  basePos : Vector3
}.

(** The mutable state the component works on: the module-level scratch
    objects [tempObj] and [tempColor], and the two refs. *)
Record Store : Type := mkStore {
  tempObj : Object3D;
  tempColor : Color;
  meshRef : option InstancedMesh;
  anchorsRef : option (list Anchor)
}.

Definition upVec : Vector3 := mkVector3 0 1 0.

(** ** MaskInstances: regeneration of the distribution *)

Definition seed : R := 99.

Definition random (offset : R) : R :=
  let x := sin (seed + offset) * 10000 in
  x - floor x.

(** The [%] operator on numbers: the remainder of the truncated division. *)
Definition trunc (x : R) : R := if x <? 0 then - floor (- x) else floor x.

Definition remainder (a b : R) : R := a - b * trunc (a / b).

(** The candidate parametric coordinate of index [i]. *)
Definition sampleUV (distribution : DistributionType) (count i : nat)
    : R * R :=
  match distribution with
  | Grid =>
      let dim := floor (sqrt (INR count)) in
      let row := floor (INR i / dim) in
      let col := remainder (INR i) dim in
      (mapRange col 0 dim (-1) 1, mapRange row 0 dim (-1) 1)
  | Spiral =>
      let angle := INR i * 2.39996 in
      let r := sqrt (INR i) / sqrt (INR count) in
      let u := r * cos angle in
      let v := r * sin angle in
      (u, v * 1.2)
  | Random =>
      (mapRange (random (INR i)) 0 1 (-1) 1,
       mapRange (random (INR i + 1000)) 0 1 (-1) 1)
  end.

(** The eye cutout the loop applies after [checkZone]. *)
Definition eyeCutout (u v : R) (zone : ZoneType) : bool :=
  match zone with
  | Full | Domino =>
      let dLeft := sqrt ((u - (-0.35)) ^ 2 + (v - 0.35) ^ 2) in
      let dRight := sqrt ((u - 0.35) ^ 2 + (v - 0.35) ^ 2) in
      (dLeft <? 0.12) || (dRight <? 0.12)
  | Respirator | Jaw => false
  end.

(** The colour written into [tempColor]. *)
Definition deriveColor (config : MaskConfig) (pFinal normal : Vector3)
    : Color :=
  match colorMode config with
  | Solid => ColorStyle (primaryColor config)
  | Depth =>
      let depth := mapRange (vz pFinal) 0 1.5 0.2 1.0 in
      ColorHSL 0.5 0.8 (depth * 0.8)
  | Normal =>
      ColorRGB (vx normal * 0.5 + 0.5) (vy normal * 0.5 + 0.5)
               (vz normal * 0.5 + 0.5)
  end.

(** The state of the regeneration loop: [idx], the scratch objects and the
    mesh. *)
Record GenState : Type := mkGenState {
  g_idx : nat;
  g_obj : Object3D;
  g_color : Color;
  g_mesh : InstancedMesh
}.

Section Placement.

Context {Matrix4 : Type} `{WorldTransform Matrix4}.

(** Position and normal of a sample, the position already pushed out along
    the normal by [config.offset]. *)
Definition resolveSurface (config : MaskConfig)
    (customMesh : option BufferGeometry) (customMeshMatrix : Matrix4)
    (u v : R) : Vector3 * Vector3 :=
  let pMath := getFacePoint u v (headWidth config) in
  let '(pFinal, normal) :=
    match customMesh with
    | Some geometry =>
        let snap := snapToMesh pMath geometry customMeshMatrix in
        (pos snap, norm snap)
    | None =>
        let pFinal := pMath in
        let normal := Vec.normalize (Vec.setY pFinal (vy pFinal * 0.5)) in
        let normal :=
          if (vz pFinal >? 0.8) && (Rabs (vx pFinal) <? 0.2)
          then mkVector3 0 0 1
          else normal in
        (pFinal, normal)
    end in
  (Vec.addVectors pFinal (Vec.multiplyScalar normal (offset config)), normal).

(** One iteration of the loop over [i]. *)
Definition placeStep (config : MaskConfig)
    (customMesh : option BufferGeometry) (customMeshMatrix : Matrix4)
    (i : nat) (st : GenState) : GenState :=
  let '(u, v) := sampleUV (distribution config) (density config) i in
  if negb (checkZone u v (zone config)) then st
  else if eyeCutout u v (zone config) then st
  else
    let '(pFinal, normal) :=
      resolveSurface config customMesh customMeshMatrix u v in
    (* Orientation *)
    let obj := setPosition (g_obj st) pFinal in
    let obj := setRotationFromQuaternion obj (FromUnitVectors upVec normal) in
    (* Scale *)
    let noiseVal := random (INR i * 0.1) in
    let scale := scaleBase config + noiseVal * scaleVar config in
    let obj := updateMatrix (setScale obj (mkVector3 scale scale scale)) in
    let mesh := setMatrixAt (g_mesh st) (g_idx st) (matrix obj) in
    (* Color *)
    let color := deriveColor config pFinal normal in
    let mesh := setColorAt mesh (g_idx st) color in
    (* Store Data for Skinning *)
    let mesh :=
      pushInstance mesh (mkInstance pFinal normal scale color (matrix obj)) in
    let idx := S (g_idx st) in
    if symmetry config
    then
      let symPos := mkVector3 (vx pFinal * -1) (vy pFinal) (vz pFinal) in
      let symNormal := mkVector3 (vx normal * -1) (vy normal) (vz normal) in
      let obj := setPosition obj symPos in
      let obj :=
        setRotationFromQuaternion obj (FromUnitVectors upVec symNormal) in
      let obj := updateMatrix (setScale obj (mkVector3 scale scale scale)) in
      let mesh := setMatrixAt mesh idx (matrix obj) in
      let mesh := setColorAt mesh idx color in
      let mesh :=
        pushInstance mesh
          (mkInstance symPos symNormal scale color (matrix obj)) in
      mkGenState (S idx) obj color mesh
    else mkGenState idx obj color mesh.

(** The layout effect: nothing without a mesh; otherwise the anchors are
    reset, [userData.instances] restarts empty and the loop fills it. *)
Definition useLayoutEffect (config : MaskConfig)
    (customMesh : option BufferGeometry) (customMeshMatrix : Matrix4)
    (s : Store) : Store :=
  match meshRef s with
  | None => s
  | Some mesh =>
      let st0 := mkGenState 0 (tempObj s) (tempColor s) (setInstances mesh [])
      in
      let st :=
        forLoop (density config) 0 1 (INR (density config))
          (placeStep config customMesh customMeshMatrix) st0 in
      mkStore (g_obj st) (g_color st)
        (Some (setCount (g_mesh st) (g_idx st))) None
  end.

End Placement.

(** ** MaskInstances: the frame handler *)

(** One iteration of the nearest-landmark search; the state is [minDist]
    and [closestIndex]. *)
Definition bindStep (restPosition : Vector3) (landmarks : list Vector3)
    (k : nat) (st : option R * Z) : option R * Z :=
  let dist := Vec.distanceToSquared restPosition (nth k landmarks Vec.zero) in
  if ltInfinity dist (fst st) then (Some dist, Z.of_nat k) else st.

Definition bindInstance (landmarks : list Vector3) (inst : InstanceData)
    : Result Anchor :=
  let '(_, closestIndex) :=
    forLoop (List.length landmarks) 0 1 (INR (List.length landmarks))
      (bindStep (inst_position inst) landmarks) (None, (-1)%Z) in
  anchorPoint <- defined (lookupZ landmarks closestIndex) ;;
  Ok (mkAnchor closestIndex
        (Vec.subVectors (inst_position inst) anchorPoint)
        (inst_position inst)).

Fixpoint mapResult {A B : Type} (f : A -> Result B) (l : list A)
    : Result (list B) :=
  match l with
  | [] => Ok []
  | a :: l' =>
      b <- f a ;;
      bs <- mapResult f l' ;;
      Ok (b :: bs)
  end.

(** The body of [anchorsRef.current.forEach]. *)
Definition updateStep (landmarks : list Vector3)
    (instanceData : list InstanceData) (anchor : Anchor) (idx : nat)
    (st : Object3D * InstancedMesh) : Result (Object3D * InstancedMesh) :=
  let '(obj, mesh) := st in
  currentLandmark <- defined (lookupZ landmarks (landmarkIndex anchor)) ;;
  instOriginal <- defined (nth_error instanceData idx) ;;
  let obj :=
    setPosition obj (Vec.addVectors currentLandmark (anchorOffset anchor)) in
  let s := inst_scale instOriginal in
  let obj := setScale obj (mkVector3 s s s) in
  let q := FromUnitVectors (mkVector3 0 1 0) (inst_normal instOriginal) in
  let obj := updateMatrix (setRotationFromQuaternion obj q) in
  Ok (obj, setMatrixAt mesh idx (matrix obj)).

Fixpoint forEachAnchor (landmarks : list Vector3)
    (instanceData : list InstanceData) (anchors : list Anchor) (idx : nat)
    (st : Object3D * InstancedMesh) : Result (Object3D * InstancedMesh) :=
  match anchors with
  | [] => Ok st
  | anchor :: rest =>
      st' <- updateStep landmarks instanceData anchor idx st ;;
      forEachAnchor landmarks instanceData rest (S idx) st'
  end.

(** The handler of one frame; [landmarks] is the optional prop. *)
Definition useFrame (landmarks : option (list Vector3)) (s : Store)
    : Result Store :=
  match meshRef s, landmarks with
  | Some mesh, Some ((_ :: _) as landmarks) =>
      match userData_instances mesh with
      | None => Ok s
      | Some instanceData =>
          match anchorsRef s with
          | None =>
              (* 1. Bind Phase *)
              anchors <- mapResult (bindInstance landmarks) instanceData ;;
              Ok (mkStore (tempObj s) (tempColor s) (meshRef s)
                    (Some anchors))
          | Some anchors =>
              (* 2. Update Phase *)
              st <- forEachAnchor landmarks instanceData anchors 0
                      (tempObj s, mesh) ;;
              Ok (mkStore (fst st) (tempColor s) (Some (snd st))
                    (Some anchors))
          end
      end
  | _, _ => Ok s
  end.


(** ** Initial values and the default configuration *)

Definition DEFAULT_CONFIG : MaskConfig :=
  mkConfig Full 0.15 1.45 Spiral 400 true Cone 0.08 0.5 Depth "#00ff9d"
           0.2 0.8.

Definition identityMatrix : InstanceMatrix :=
  compose Vec.zero QuatIdentity (mkVector3 1 1 1).

(** [new THREE.Object3D()] and [new THREE.Color()]. *)
Definition newObject3D : Object3D :=
  mkObject3D Vec.zero QuatIdentity (mkVector3 1 1 1) identityMatrix.

Definition newColor : Color := ColorRGB 1 1 1.

(** The instanced mesh as it is mounted, with room for
    [config.density * 2] instances and no [userData.instances] yet. *)
Definition newInstancedMesh (capacity : nat) : InstancedMesh :=
  mkMesh (fun _ => identityMatrix) (fun _ => newColor) capacity None.

Definition mountedStore (config : MaskConfig) : Store :=
  mkStore newObject3D newColor
    (Some (newInstancedMesh (density config * 2))) None.

(** ** Views of the state in which the properties are stated *)

(** The InstanceSet a store holds: the realized count and the instances in
    insertion order. *)
Definition instanceSet (s : Store) : option (nat * list InstanceData) :=
  match meshRef s with
  | Some mesh =>
      match userData_instances mesh with
      | Some l => Some (count mesh, l)
      | None => None
      end
  | None => None
  end.

(** The invariant of the regeneration loop: [userData.instances] is [acc]
    and [idx] is its length. *)
Definition holds (st : GenState) (acc : list InstanceData) : Prop :=
  userData_instances (g_mesh st) = Some acc /\ g_idx st = List.length acc.

(** What the bind phase records for one instance against the cloud
    [landmarks]: a landmark index inside the cloud and the offset from that
    landmark to the rest position. *)
Definition anchoredTo (landmarks : list Vector3) (inst : InstanceData)
    (anchor : Anchor) : Prop :=
  (0 <= landmarkIndex anchor < Z.of_nat (List.length landmarks))%Z /\
  exists anchorPoint : Vector3,
    lookupZ landmarks (landmarkIndex anchor) = Some anchorPoint /\
    anchorOffset anchor = Vec.subVectors (inst_position inst) anchorPoint.



(** The mirror image of an instance across the sagittal plane. *)
Definition mirrored (a : InstanceData) : InstanceData :=
  let p := inst_position a in
  let n := inst_normal a in
  let s := inst_scale a in
  let symPos := mkVector3 (- vx p) (vy p) (vz p) in
  let symNormal := mkVector3 (- vx n) (vy n) (vz n) in
  mkInstance symPos symNormal s (inst_color a)
    (compose symPos (FromUnitVectors upVec symNormal) (mkVector3 s s s)).

Definition optionList {A : Type} (o : option A) : list A :=
  match o with
  | Some a => [a]
  | None => []
  end.

Section Accepted.

Context {Matrix4 : Type} `{WorldTransform Matrix4}.

(** The instance that index [i] contributes when its sample is accepted. *)
Definition acceptedAt (config : MaskConfig)
    (customMesh : option BufferGeometry) (customMeshMatrix : Matrix4)
    (i : nat) : option InstanceData :=
  let '(u, v) := sampleUV (distribution config) (density config) i in
  if negb (checkZone u v (zone config)) then None
  else if eyeCutout u v (zone config) then None
  else
    let '(pFinal, normal) :=
      resolveSurface config customMesh customMeshMatrix u v in
    let scale := scaleBase config + random (INR i * 0.1) * scaleVar config in
    Some (mkInstance pFinal normal scale (deriveColor config pFinal normal)
            (compose pFinal (FromUnitVectors upVec normal)
               (mkVector3 scale scale scale))).

(** The accepted instances, by increasing index. *)
Definition accepted (config : MaskConfig)
    (customMesh : option BufferGeometry) (customMeshMatrix : Matrix4)
    : list InstanceData :=
  flat_map
    (fun i => optionList (acceptedAt config customMesh customMeshMatrix i))
    (seq 0 (density config)).

(** What one accepted instance appends. *)
Definition emitted (config : MaskConfig) (a : InstanceData)
    : list InstanceData :=
  if symmetry config then [a; mirrored a] else [a].

(** What index [i] appends, and the whole InstanceSet. *)
Definition emittedAt (config : MaskConfig)
    (customMesh : option BufferGeometry) (customMeshMatrix : Matrix4)
    (i : nat) : list InstanceData :=
  flat_map (emitted config)
    (optionList (acceptedAt config customMesh customMeshMatrix i)).

Definition generated (config : MaskConfig)
    (customMesh : option BufferGeometry) (customMeshMatrix : Matrix4)
    : list InstanceData :=
  flat_map (emittedAt config customMesh customMeshMatrix)
    (seq 0 (density config)).

End Accepted.

(** A landmark cloud moved by the vector [delta]. *)
Definition translateCloud (delta : Vector3) (landmarks : list Vector3)
    : list Vector3 :=
  map (fun p => Vec.addVectors p delta) landmarks.

(** ** Sample inputs *)

(** Three points of the plane [z = 0], none of them at the origin. *)
Definition cloud3 : list Vector3 :=
  [mkVector3 3 4 0; mkVector3 4 4 0; mkVector3 3 5 0].

(** A store that was already used: stale scratch objects, the instances of
    an earlier regeneration and the anchors of an earlier bind. *)
Definition staleInstance : InstanceData :=
  mkInstance (mkVector3 0 0 1) (mkVector3 0 0 1) 0.1 (ColorStyle "#00ccff")
    (compose (mkVector3 0 0 1) (FromUnitVectors upVec (mkVector3 0 0 1))
       (mkVector3 0.1 0.1 0.1)).

Definition usedStore : Store :=
  mkStore
    (mkObject3D (mkVector3 0 0 1) (FromUnitVectors upVec (mkVector3 0 0 1))
       (mkVector3 0.1 0.1 0.1) (inst_matrix staleInstance))
    (ColorStyle "#00ccff")
    (Some (mkMesh (fun _ => inst_matrix staleInstance)
             (fun _ => ColorStyle "#00ccff") 1 (Some [staleInstance])))
    (Some [mkAnchor 0 (mkVector3 0 0 1) (mkVector3 0 0 1)]).

(** A store whose instances were generated and not yet bound. *)
Definition unboundMesh : InstancedMesh :=
  mkMesh (fun _ => inst_matrix staleInstance) (fun _ => ColorStyle "#00ccff")
         1 (Some [staleInstance]).

Definition unboundStore : Store :=
  mkStore newObject3D newColor (Some unboundMesh) None.

(** A two-landmark cloud, a translation and a one-landmark cloud. *)
Definition cloud2 : list Vector3 := [mkVector3 0 0 0; mkVector3 1 0 2].
Definition shift : Vector3 := mkVector3 1 2 3.
Definition cloud1 : list Vector3 := [mkVector3 5 5 5].

(** ** App: the animation loop *)

Record AnimationDef : Type := mkAnimation {
  active : bool;
  anim_min : R;
  anim_max : R;
  speed : R
}.

(** The value the loop writes into an animated numeric field at [time]. *)
Definition animatedValue (anim : AnimationDef) (time : R) : R :=
  let sine := sin (time * speed anim) in
  let norm := (sine + 1) / 2 in
  anim_min anim + norm * (anim_max anim - anim_min anim).

(** ** FaceScanner: capture of a scanned face *)

(** The detector's result as [handleCapture] reads it: per detected face a
    list of landmarks, in image coordinates and in world coordinates;
    either field may be missing. *)
Record FaceLandmarkerResult : Type := mkResult {
  faceLandmarks : option (list (list Vector3));
  faceWorldLandmarks : option (list (list Vector3))
}.

(** The running sums [cx], [cy], [cz] of the first [forEach]. *)
Definition sumLandmarks (landmarks : list Vector3) : R * R * R :=
  fold_left
    (fun (acc : R * R * R) (l : Vector3) =>
       let '(cx, cy, cz) := acc in (cx + vx l, cy + vy l, cz + vz l))
    landmarks (0, 0, 0).

(** The [vertices] array that [handleCapture] fills. *)
Definition captureVertices (results : FaceLandmarkerResult) : list R :=
  match faceWorldLandmarks results with
  | Some (worldLandmarks :: _) =>
      let SCENE_SCALE := 12.0 in
      let '(cx, cy, cz) := sumLandmarks worldLandmarks in
      let len := INR (List.length worldLandmarks) in
      let cx := cx / len in
      let cy := cy / len in
      let cz := cz / len in
      flat_map
        (fun l =>
           [- (vx l - cx) * SCENE_SCALE; - (vy l - cy) * SCENE_SCALE;
            (vz l - cz) * SCENE_SCALE])
        worldLandmarks
  | _ =>
      match faceLandmarks results with
      | Some (landmarks :: _) =>
          let SCALE := 1.5 in
          flat_map
            (fun l =>
               [- (vx l - 0.5) * SCALE * 1.5; - (vy l - 0.5) * SCALE;
                - vz l * SCALE])
            landmarks
      | _ => []
      end
  end.

(** The geometry handed to [onCapture], as its [position] and [normal]
    arrays; [None] when nothing is captured. *)
Definition handleCapture (lastResult : option FaceLandmarkerResult)
    : option (list R * list R) :=
  match lastResult with
  | None => None
  | Some results =>
      let vertices := captureVertices results in
      if (0 <? List.length vertices)%nat
      then Some (vertices, computePointCloudNormals vertices)
      else None
  end.

(** ** GhostHead: the procedural point cloud

    [Math.random] is the stream [rand] of its successive results; iteration
    [i] draws twice, first for [u] and then for [v]. *)
Definition ghostPoints (rand : nat -> R) (headWidth : R)
    (customMesh : option BufferGeometry) : option (list R) :=
  match customMesh with
  | Some _ => None
  | None =>
      let count := 1000%nat in
      Some
        (forLoop count 0 1 (INR count)
           (fun i pts =>
              let u := rand (2 * i)%nat * 2 - 1 in
              let v := rand (2 * i + 1)%nat * 2 - 1 in
              let vec := getFacePoint u v headWidth in
              pts ++ [vx vec; vy vec; vz vec])
           [])
  end.

(** ** Further views of the state *)


(** A vector of length one, or of length zero. *)
Definition unitOrZero (n : Vector3) : Prop :=
  Vec.length n = 1 \/ Vec.length n = 0.

(** Slot [k] of the buffers of [mesh] shows the instance [a]. *)
Definition slotShows (mesh : InstancedMesh) (k : nat) (a : InstanceData)
    : Prop :=
  instanceMatrix mesh k
  = compose (inst_position a) (FromUnitVectors upVec (inst_normal a))
      (mkVector3 (inst_scale a) (inst_scale a) (inst_scale a)) /\
  instanceColor mesh k = inst_color a.

(** The neighbour list of point [i] after the search went through the
    indices below [J], for the squared distances [D] to point [i]: sorted
    by increasing distance, made of distinct visited indices other than
    [i], of at most [k] entries, and such that an index visited and not in
    the list is at least as far as every entry of a full list. *)
Definition nearestSoFar (D : nat -> R) (k i J : nat) (nb : list Neighbor)
    : Prop :=
  StronglySorted (fun a b => dist a <= dist b) nb /\
  Forall (fun e => (idx e < J)%nat /\ idx e <> i /\ dist e = D (idx e)) nb /\
  NoDup (map idx nb) /\
  (List.length nb <= k)%nat /\
  forall j, (j < J)%nat -> j <> i ->
    In j (map idx nb) \/
    (List.length nb = k /\ Forall (fun e => dist e <= D j) nb).

(** * Part II: properties *)

(** ** Comparisons and loops *)

Lemma Rltb_true (x y : R) : (x <? y) = true <-> x < y.
Proof. unfold Rltb; destruct (Rlt_dec x y); split; auto; discriminate. Qed.

Lemma Rltb_false (x y : R) : (x <? y) = false <-> y <= x.
Proof.
  unfold Rltb; destruct (Rlt_dec x y); split; auto; try discriminate; lra.
Qed.

Lemma Rltb_lt (x y : R) : x < y -> (x <? y) = true.
Proof. apply Rltb_true. Qed.

Lemma Rltb_ge (x y : R) : y <= x -> (x <? y) = false.
Proof. apply Rltb_false. Qed.

Lemma forLoop_from {St : Type} (body : nat -> St -> St) :
  forall (fuel i : nat) (s : St),
    forLoop fuel i 1 (INR (i + fuel)) body s
    = fold_left (fun s k => body k s) (seq i fuel) s.
Proof.
  induction fuel as [| fuel IH]; intros i s; [reflexivity |].
  cbn [forLoop seq fold_left].
  rewrite Rltb_lt by (apply lt_INR; lia).
  replace (i + S fuel)%nat with ((i + 1) + fuel)%nat by lia.
  rewrite IH. now rewrite Nat.add_1_r.
Qed.

(** A fuel of [n] runs [for (i = 0; i < n; i++)] to its end: the loop is
    the left fold of its body over [0, 1, ..., n-1]. *)
Lemma forLoop_seq {St : Type} (body : nat -> St -> St) (n : nat) (s : St) :
  forLoop n 0 1 (INR n) body s = fold_left (fun s k => body k s) (seq 0 n) s.
Proof. exact (forLoop_from body n 0 s). Qed.

(** A loop whose stride is positive ends by its own test once the fuel
    covers the bound: more fuel changes nothing. *)
Lemma forLoop_fuel_enough {St : Type} (body : nat -> St -> St) (step : nat)
    (bound : R) :
  (1 <= step)%nat ->
  forall (fuel extra i : nat) (s : St),
    bound <= INR (i + fuel) ->
    forLoop (fuel + extra) i step bound body s
    = forLoop fuel i step bound body s.
Proof.
  intros Hstep. induction fuel as [| fuel IH]; intros extra i s Hb.
  - rewrite Nat.add_0_r in Hb. destruct extra; [reflexivity |].
    cbn [Nat.add forLoop]. now rewrite Rltb_ge.
  - cbn [Nat.add forLoop]. destruct (INR i <? bound); [| reflexivity].
    apply IH. apply Rle_trans with (1 := Hb). apply le_INR. lia.
Qed.

(** An invariant of the body, under the loop test, is an invariant of the
    loop. *)
Lemma forLoop_invariant {St : Type} (P : St -> Prop) (body : nat -> St -> St)
    (step : nat) (bound : R) :
  (forall (k : nat) (s : St), INR k < bound -> P s -> P (body k s)) ->
  forall (fuel i : nat) (s : St), P s -> P (forLoop fuel i step bound body s).
Proof.
  intros Hbody. induction fuel as [| fuel IH]; intros i s Hs; [exact Hs |].
  cbn [forLoop]. destruct (INR i <? bound) eqn:E; [| exact Hs].
  apply IH, Hbody; [now apply Rltb_true | exact Hs].
Qed.

(** ** The surface model *)

Lemma mapRange_lerp (t a b c d : R) :
  mapRange t a b c d = SurfaceSpec.lerp t a b c d.
Proof. unfold mapRange, SurfaceSpec.lerp; unfold Rdiv; ring. Qed.

Lemma sign_of_cheek (u : R) :
  Rabs (Rabs u - 0.55) < 0.3 ->
  (if u >? 0 then 1 else -1) = SurfaceSpec.sign u.
Proof.
  intros H. unfold SurfaceSpec.sign.
  destruct (Rlt_dec 0 u) as [Hu | Hu].
  - now rewrite (Rltb_lt _ _ Hu).
  - rewrite (Rltb_ge 0 u) by lra.
    assert (u < 0) as Hneg.
    { destruct (Rle_lt_dec 0 u) as [Hz | Hz]; [| exact Hz].
      assert (u = 0) by lra. subst u.
      rewrite Rabs_R0 in H. unfold Rminus in H. rewrite Rplus_0_l in H.
      rewrite Rabs_Ropp, Rabs_pos_eq in H; lra. }
    now rewrite (Rltb_lt _ _ Hneg).
Qed.

(** C1.  On the parametric domain [-1,1] x [-1,1] and for every head width
    factor, [getFacePoint] equals the closed-form reference surface of the
    specification: the base ellipsoid followed, in this order, by the nose
    bridge, brow ridge, cheekbone and chin terms. *)
Theorem getFacePoint_refines_spec (u v headWidthFactor : R) :
  -1 <= u <= 1 -> -1 <= v <= 1 ->
  getFacePoint u v headWidthFactor = SurfaceSpec.evaluate u v headWidthFactor.
Proof.
  intros _ _.
  unfold getFacePoint, SurfaceSpec.evaluate, SurfaceSpec.baseEllipsoid.
  rewrite !mapRange_lerp.
  replace (- PI / 1.6) with (- (PI / 1.6)) by (unfold Rdiv; ring).
  replace (- PI / 3) with (- (PI / 3)) by (unfold Rdiv; ring).
  set (theta := SurfaceSpec.lerp u _ _ _ _).
  set (phi := SurfaceSpec.lerp v _ _ _ _).
  unfold SurfaceSpec.noseBridge, SurfaceSpec.norm2.
  replace (u ^ 2 + (v - -0.15) ^ 2) with (u * u + (v + 0.15) * (v + 0.15))
    by nra.
  set (noseDist := sqrt _).
  unfold SurfaceSpec.chin, SurfaceSpec.cheekbones, SurfaceSpec.browRidge.
  set (cheekDist := Rabs (Rabs u - 0.55)).
  set (browDist := Rabs (v - 0.25)).
  replace (cheekDist * PI / 0.6) with (cheekDist * (PI / 0.6))
    by (unfold Rdiv; ring).
  replace (browDist * PI / 0.4) with (browDist * (PI / 0.4))
    by (unfold Rdiv; ring).
  replace (-0.5 <? v) with (v >? -0.5) by reflexivity.
  rewrite (andb_comm (v >? -0.5) (v <? 0)).
  destruct (noseDist <? 0.3); cbn [vx vy vz];
    destruct ((browDist <? 0.2) && (Rabs u <? 0.7)); cbn [vx vy vz];
    destruct ((v <? 0) && (v >? -0.5)); cbn [andb vx vy vz];
    destruct (cheekDist <? 0.3) eqn:Hc; cbn [vx vy vz];
    try (apply Rltb_true in Hc; rewrite (sign_of_cheek u Hc));
    destruct (v <? -0.7); cbn [vx vy vz];
    f_equal; ring.
Qed.

Lemma getFacePoint_refines_spec_witness :
  (-1 <= 0 <= 1) /\ (-1 <= 0 <= 1) /\
  getFacePoint 0 0 1.45 = SurfaceSpec.evaluate 0 0 1.45.
Proof.
  split; [lra | split; [lra |]].
  apply (getFacePoint_refines_spec 0 0 1.45); lra.
Defined.

(** ** Mesh snapping *)

Lemma snap_stride_positive (x : R) :
  (1 <= Z.to_nat (Zfloor (Rmax 1 x)))%nat.
Proof.
  assert (1 <= Zfloor (Rmax 1 x))%Z; [| lia].
  apply (Zfloor_lub 1). apply Rmax_l.
Qed.

(** The stride of the search is at least 1, so the fuel of [snapToMesh],
    one unit per vertex, lets the search run to its end. *)
Lemma snap_search_complete {Matrix4 : Type} `{WorldTransform Matrix4}
    (target : Vector3) (posAttribute : list Vector3) (matrixWorld : Matrix4)
    (extra : nat) :
  let count := List.length posAttribute in
  let step := Z.to_nat (Zfloor (Rmax 1 (INR count / 2000))) in
  forLoop (count + extra) 0 step (INR count)
    (snapStep target posAttribute matrixWorld) (None, (-1)%Z)
  = forLoop count 0 step (INR count)
      (snapStep target posAttribute matrixWorld) (None, (-1)%Z).
Proof.
  intros count step. apply forLoop_fuel_enough.
  - apply snap_stride_positive.
  - cbn [Nat.add]. lra.
Qed.

(** C9.  On a mesh whose vertex buffer is empty, whatever its normal
    attribute and world transform, [snapToMesh] returns the target point
    itself as position and the normalized target as normal. *)
Theorem snapToMesh_empty_mesh {Matrix4 : Type} `{WorldTransform Matrix4}
    (target : Vector3) (normals : option (list Vector3))
    (matrixWorld : Matrix4) :
  snapToMesh target (mkGeometry [] normals) matrixWorld
  = mkSample target (Vec.normalize target).
Proof. reflexivity. Qed.

(** On a mesh with at least one vertex the search finds a vertex, and the
    sample sits on it: the fallback is taken on the empty mesh only. *)
Lemma snapToMesh_nonempty {Matrix4 : Type} `{WorldTransform Matrix4}
    (target : Vector3) (geometry : BufferGeometry) (matrixWorld : Matrix4) :
  attr_position geometry <> [] ->
  exists i : nat,
    (i < List.length (attr_position geometry))%nat /\
    pos (snapToMesh target geometry matrixWorld)
    = applyMatrix4 (fromBufferAttribute (attr_position geometry) i)
        matrixWorld.
Proof.
  intros Hne. unfold snapToMesh.
  set (posAttribute := attr_position geometry) in *.
  set (count := List.length posAttribute).
  set (step := Z.to_nat _).
  assert (Hr : (0 <= snd (forLoop count 0 step (INR count)
                            (snapStep target posAttribute matrixWorld)
                            (None, (-1)%Z)) < Z.of_nat count)%Z).
  { assert (Hc : (0 < count)%nat).
    { unfold count. destruct posAttribute; [contradiction | cbn; lia]. }
    destruct count as [| n] eqn:Ec; [lia |].
    cbn [forLoop]. rewrite Rltb_lt by (apply lt_INR; lia).
    apply forLoop_invariant.
    - intros k s Hk Hs. unfold snapStep.
      destruct (ltInfinity _ _); [| exact Hs].
      cbn [snd]. apply INR_lt in Hk. lia.
    - unfold snapStep. cbn [fst ltInfinity snd]. lia. }
  destruct (forLoop _ _ _ _ _ _) as [minDistanceSq bestIndex].
  cbn [snd] in Hr.
  destruct (bestIndex =? -1)%Z eqn:E; [lia |].
  exists (Z.to_nat bestIndex). split; [lia |].
  cbn [negb]. now destruct (attr_normal geometry).
Qed.

(** ** Point-cloud normals *)

Lemma forLoop_upto {St : Type} (body : nat -> St -> St) :
  forall (fuel i n : nat) (s : St),
    (i <= n)%nat -> (n - i <= fuel)%nat ->
    forLoop fuel i 1 (INR n) body s
    = fold_left (fun s k => body k s) (seq i (n - i)) s.
Proof.
  induction fuel as [| fuel IH]; intros i n s Hin Hfuel.
  - replace (n - i)%nat with 0%nat by lia. reflexivity.
  - cbn [forLoop]. destruct (Nat.eq_dec i n) as [-> | Hne].
    + rewrite Rltb_ge by lra. now rewrite Nat.sub_diag.
    + rewrite Rltb_lt by (apply lt_INR; lia).
      rewrite IH by lia.
      replace (n - i)%nat with (S (n - (i + 1)))%nat by lia.
      cbn [seq fold_left]. now rewrite Nat.add_1_r.
Qed.

Lemma length_flatten (pts : list Vector3) :
  List.length (flatten pts) = (3 * List.length pts)%nat.
Proof.
  unfold flatten.
  induction pts as [| p pts IH]; [reflexivity |].
  cbn [flat_map app List.length]. rewrite IH. lia.
Qed.

Lemma count_flatten (pts : list Vector3) :
  INR (List.length (flatten pts)) / 3 = INR (List.length pts).
Proof. rewrite length_flatten, mult_INR. simpl INR. field. Qed.

(** On a flat array of [n] points the outer loop visits the points
    [0 .. n-1], and so does the neighbour search of each of them. *)
Lemma normals_of_cloud (pts : list Vector3) :
  computePointCloudNormals (flatten pts)
  = fold_left
      (fun normals i =>
         normalStep (flatten pts) (INR (List.length pts)) i normals)
      (seq 0 (List.length pts)) (repeat 0 (List.length (flatten pts))).
Proof.
  unfold computePointCloudNormals.
  rewrite count_flatten, forLoop_upto.
  - now rewrite Nat.sub_0_r.
  - lia.
  - rewrite length_flatten. lia.
Qed.

Lemma neighbors_of_cloud (pts : list Vector3) (k i : nat) (p1 : Vector3) :
  forLoop (List.length (flatten pts)) 0 1 (INR (List.length pts))
    (neighborStep (flatten pts) k i p1) []
  = fold_left (fun nb j => neighborStep (flatten pts) k i p1 j nb)
      (seq 0 (List.length pts)) [].
Proof.
  rewrite forLoop_upto.
  - now rewrite Nat.sub_0_r.
  - lia.
  - rewrite length_flatten. lia.
Qed.

(** On any array the fuel of the outer loop covers its bound. *)
Lemma normals_search_complete (positions : list R) (extra : nat) :
  let count := INR (List.length positions) / 3 in
  forLoop (List.length positions + extra) 0 1 count
    (normalStep positions count) (repeat 0 (List.length positions))
  = computePointCloudNormals positions.
Proof.
  intros count. unfold computePointCloudNormals. apply forLoop_fuel_enough.
  - lia.
  - cbn [Nat.add]. unfold count. pose proof (pos_INR (List.length positions)).
    lra.
Qed.

Lemma normalStep_writes (positions : list R) (count : R) (i : nat)
    (normals : list R) :
  exists n, normalStep positions count i normals = writeVector normals i n.
Proof.
  unfold normalStep.
  destruct (forLoop _ _ _ _ _ _) as [| n1 [| n2 rest]]; eauto.
Qed.

Lemma normalize_nonzero_z (a : Vector3) :
  vz a <> 0 -> vz (Vec.normalize a) <> 0.
Proof.
  intros Hz. unfold Vec.normalize, Vec.divideScalar, Vec.multiplyScalar.
  cbn [vz].
  assert (Hl : (if Req_dec_T (Vec.length a) 0 then 1 else Vec.length a) <> 0).
  { destruct (Req_dec_T (Vec.length a) 0); [lra | assumption]. }
  intro E. apply Rmult_integral in E. destruct E as [E | E]; [contradiction |].
  unfold Rdiv in E. rewrite Rmult_1_l in E.
  now apply (Rinv_neq_0_compat _ Hl).
Qed.

(** The first point of [cloud3] has two neighbours, so its normal is the
    normalized cross product; it points along [z]. *)
Lemma cloud3_first_normal (normals : list R) :
  exists n,
    normalStep (flatten cloud3) (INR (List.length cloud3)) 0 normals
    = writeVector normals 0 n /\ vz n <> 0.
Proof.
  unfold normalStep. rewrite neighbors_of_cloud.
  cbn [cloud3 List.length seq fold_left].
  unfold neighborStep.
  cbn [Nat.eqb List.length Nat.ltb Nat.leb app sortNeighbors fold_right
       insertNeighbor dist].
  unfold pointAt, nthR, cloud3, flatten.
  cbn [flat_map app Nat.mul Nat.add nth vx vy vz].
  unfold Vec.distanceToSquared at 1 2. cbn [vx vy vz].
  rewrite Rltb_ge by lra.
  cbn [idx Nat.mul Nat.add nth].
  eexists; split; [reflexivity |].
  assert (Hz : vz (Vec.normalize
                 (Vec.crossVectors
                    (Vec.subVectors (mkVector3 4 4 0) (mkVector3 3 4 0))
                    (Vec.subVectors (mkVector3 3 5 0) (mkVector3 3 4 0))))
               <> 0).
  { apply normalize_nonzero_z. cbn. lra. }
  destruct (_ <? 0); cbn [Vec.negate vz]; lra.
Qed.

(** C7, as stated, fails: a cloud of exactly three points gives every
    point two neighbours, and the first normal of [cloud3] is the cross
    product direction, not the normalized position. *)
Lemma normals_three_points_not_fallback :
  (List.length cloud3 <= 3)%nat /\
  computePointCloudNormals (flatten cloud3)
  <> flatten (map Vec.normalize cloud3).
Proof.
  split; [simpl; lia |].
  intro E. apply (f_equal (fun l => nth 2 l 0)) in E. revert E.
  rewrite normals_of_cloud.
  cbn [List.length seq fold_left cloud3].
  change 3%nat with (List.length cloud3). fold cloud3.
  set (zeros := repeat 0 (List.length (flatten cloud3))).
  destruct (cloud3_first_normal zeros) as (n0 & -> & Hz).
  destruct (normalStep_writes (flatten cloud3) (INR (List.length cloud3)) 1
              (writeVector zeros 0 n0)) as [n1 ->].
  destruct (normalStep_writes (flatten cloud3) (INR (List.length cloud3)) 2
              (writeVector (writeVector zeros 0 n0) 1 n1)) as [n2 ->].
  cbn. intros E. apply Hz. rewrite E. apply Rmult_0_l.
Qed.

(** C7, amended.  For a cloud of at most two points every point has fewer
    than two neighbours, and the result holds, for each point, its
    normalized position. *)
Theorem normals_fallback_two_points (pts : list Vector3) :
  (List.length pts <= 2)%nat ->
  computePointCloudNormals (flatten pts) = flatten (map Vec.normalize pts).
Proof.
  intros Hlen.
  destruct pts as [| a [| b [| c rest]]]; [| | | cbn in Hlen; lia];
    rewrite normals_of_cloud;
    cbn [List.length seq fold_left];
    unfold normalStep;
    rewrite ?neighbors_of_cloud;
    cbn [List.length seq fold_left];
    unfold neighborStep;
    cbn [Nat.eqb List.length Nat.ltb Nat.leb app sortNeighbors fold_right
         insertNeighbor];
    cbn [flatten flat_map app List.length repeat];
    unfold pointAt, nthR, writeVector; cbn [Nat.mul Nat.add nth writeAt map].
  - reflexivity.
  - destruct a; reflexivity.
  - destruct a, b; reflexivity.
Qed.

Lemma normals_fallback_two_points_witness :
  (List.length [mkVector3 3 4 0; mkVector3 4 4 0] <= 2)%nat /\
  computePointCloudNormals (flatten [mkVector3 3 4 0; mkVector3 4 4 0])
  = flatten (map Vec.normalize [mkVector3 3 4 0; mkVector3 4 4 0]).
Proof.
  split; [cbn; lia |].
  apply (normals_fallback_two_points [mkVector3 3 4 0; mkVector3 4 4 0]).
  cbn; lia.
Defined.

(** ** Regeneration: the loop against its functional reading *)

Section Regeneration.

Context {Matrix4 : Type} `{WorldTransform Matrix4}.
Variable config : MaskConfig.
Variable customMesh : option BufferGeometry.
Variable customMeshMatrix : Matrix4.

Lemma push_after_sets (m : InstancedMesh) (i j : nat) (x : InstanceMatrix)
    (c : Color) (a : InstanceData) (l : list InstanceData) :
  userData_instances m = Some l ->
  userData_instances (pushInstance (setColorAt (setMatrixAt m i x) j c) a)
  = Some (l ++ [a]).
Proof.
  intros Hl. unfold pushInstance.
  cbn [setColorAt setMatrixAt userData_instances]. rewrite Hl. reflexivity.
Qed.

Lemma placeStep_emits (i : nat) (st : GenState) (acc : list InstanceData) :
  holds st acc ->
  holds (placeStep config customMesh customMeshMatrix i st)
        (acc ++ emittedAt config customMesh customMeshMatrix i).
Proof.
  intros [Hacc Hidx]. unfold placeStep, emittedAt, acceptedAt.
  destruct (sampleUV _ _ _) as [u v].
  destruct (negb (checkZone u v (zone config)));
    [cbn; rewrite app_nil_r; now split |].
  destruct (eyeCutout u v (zone config));
    [cbn; rewrite app_nil_r; now split |].
  destruct (resolveSurface _ _ _ _ _) as [pFinal normal].
  unfold emitted, mirrored, holds.
  destruct (symmetry config);
    cbn [optionList flat_map app g_mesh g_idx inst_position inst_normal
         inst_scale inst_color updateMatrix setScale
         setRotationFromQuaternion setPosition matrix position quaternion
         scale].
  - erewrite push_after_sets
      by (erewrite push_after_sets by exact Hacc; reflexivity).
    replace (vx pFinal * -1) with (- vx pFinal) by ring.
    replace (vx normal * -1) with (- vx normal) by ring.
    rewrite <- app_assoc. cbn [app]. split; [reflexivity |].
    rewrite length_app, Hidx. cbn [List.length]. lia.
  - erewrite push_after_sets by exact Hacc.
    split; [reflexivity |].
    rewrite length_app, Hidx. cbn [List.length]. lia.
Qed.

Lemma placeLoop_emits (indices : list nat) :
  forall (st : GenState) (acc : list InstanceData),
    holds st acc ->
    holds (fold_left
             (fun s k => placeStep config customMesh customMeshMatrix k s)
             indices st)
          (acc ++ flat_map (emittedAt config customMesh customMeshMatrix)
                    indices).
Proof.
  induction indices as [| i indices IH]; intros st acc Hst.
  - cbn. now rewrite app_nil_r.
  - cbn [fold_left flat_map]. rewrite app_assoc.
    apply IH. now apply placeStep_emits.
Qed.

(** With a mesh mounted, the layout effect leaves exactly [generated] in
    [userData.instances], sets [count] to its length and resets the
    anchors, whatever the store held before. *)
Lemma useLayoutEffect_generated (s : Store) (mesh : InstancedMesh) :
  meshRef s = Some mesh ->
  let s' := useLayoutEffect config customMesh customMeshMatrix s in
  instanceSet s'
  = Some (List.length (generated config customMesh customMeshMatrix),
          generated config customMesh customMeshMatrix)
  /\ anchorsRef s' = None.
Proof.
  intros Hmesh s'. subst s'. unfold useLayoutEffect. rewrite Hmesh.
  rewrite forLoop_seq.
  set (st0 := mkGenState 0 (tempObj s) (tempColor s) (setInstances mesh [])).
  assert (Hinv : holds st0 []) by (split; reflexivity).
  apply (placeLoop_emits (seq 0 (density config))) in Hinv.
  destruct Hinv as [Hacc Hidx]. cbn [app] in Hacc, Hidx.
  fold (generated config customMesh customMeshMatrix) in Hacc, Hidx.
  unfold instanceSet. cbn [meshRef anchorsRef setCount userData_instances
                           count].
  rewrite Hacc, Hidx. now split.
Qed.

End Regeneration.

Lemma flat_map_flat_map {A B C : Type} (f : B -> list C) (g : A -> list B)
    (l : list A) :
  flat_map f (flat_map g l) = flat_map (fun x => flat_map f (g x)) l.
Proof.
  induction l as [| x l IH]; [reflexivity |].
  cbn [flat_map]. now rewrite flat_map_app, IH.
Qed.

Lemma generated_accepted {Matrix4 : Type} `{WorldTransform Matrix4}
    (config : MaskConfig) (customMesh : option BufferGeometry)
    (customMeshMatrix : Matrix4) :
  generated config customMesh customMeshMatrix
  = flat_map (emitted config) (accepted config customMesh customMeshMatrix).
Proof.
  unfold generated, accepted, emittedAt. now rewrite flat_map_flat_map.
Qed.

(** C2.  Regeneration is deterministic: for a fixed configuration, target
    mesh and transform, two runs of the layout effect, started from any two
    stores with a mesh mounted, leave the same InstanceSet: the same
    realized count and, index by index, the same instances. *)
Theorem regeneration_deterministic {Matrix4 : Type} `{WorldTransform Matrix4}
    (config : MaskConfig) (customMesh : option BufferGeometry)
    (customMeshMatrix : Matrix4) (s1 s2 : Store) :
  meshRef s1 <> None -> meshRef s2 <> None ->
  exists (n : nat) (insts : list InstanceData),
    instanceSet (useLayoutEffect config customMesh customMeshMatrix s1)
    = Some (n, insts) /\
    instanceSet (useLayoutEffect config customMesh customMeshMatrix s2)
    = Some (n, insts).
Proof.
  intros H1 H2.
  destruct (meshRef s1) as [m1 |] eqn:E1; [| contradiction].
  destruct (meshRef s2) as [m2 |] eqn:E2; [| contradiction].
  exists (List.length (generated config customMesh customMeshMatrix)),
         (generated config customMesh customMeshMatrix).
  split.
  - exact (proj1 (useLayoutEffect_generated config customMesh
                    customMeshMatrix s1 m1 E1)).
  - exact (proj1 (useLayoutEffect_generated config customMesh
                    customMeshMatrix s2 m2 E2)).
Qed.

Lemma regeneration_deterministic_witness :
  meshRef (mountedStore DEFAULT_CONFIG) <> None /\
  meshRef usedStore <> None /\
  exists (n : nat) (insts : list InstanceData),
    instanceSet (useLayoutEffect DEFAULT_CONFIG None tt
                   (mountedStore DEFAULT_CONFIG))
    = Some (n, insts) /\
    instanceSet (useLayoutEffect DEFAULT_CONFIG None tt usedStore)
    = Some (n, insts).
Proof.
  split; [discriminate | split; [discriminate |]].
  apply (regeneration_deterministic DEFAULT_CONFIG None tt
           (mountedStore DEFAULT_CONFIG) usedStore); discriminate.
Defined.

(** ** Symmetry *)

Lemma nth_error_pairs {A : Type} (f : A -> A) (l : list A) :
  forall (k : nat) (a : A),
    nth_error l k = Some a ->
    nth_error (flat_map (fun x => [x; f x]) l) (2 * k) = Some a /\
    nth_error (flat_map (fun x => [x; f x]) l) (2 * k + 1) = Some (f a).
Proof.
  induction l as [| x l IH]; intros k a Hk.
  - destruct k; discriminate.
  - destruct k as [| k].
    + injection Hk as ->. now split.
    + cbn [nth_error] in Hk. destruct (IH k a Hk) as [He Ho].
      replace (2 * S k)%nat with (S (S (2 * k))) by lia.
      replace (S (S (2 * k)) + 1)%nat with (S (S (2 * k + 1))) by lia.
      cbn [flat_map app nth_error]. now split.
Qed.

Lemma length_pairs {A : Type} (f : A -> A) (l : list A) :
  List.length (flat_map (fun x => [x; f x]) l) = (2 * List.length l)%nat.
Proof.
  induction l as [| x l IH]; [reflexivity |].
  cbn [flat_map app List.length]. rewrite IH. lia.
Qed.

(** C8.  With [symmetry] set, the InstanceSet left by the regeneration
    lists the accepted instances in order, each one at an even index and
    immediately followed by its mirror image: position [(-x, y, z)], the
    same scale and the same colour. *)
Theorem symmetry_mirrored_pairs {Matrix4 : Type} `{WorldTransform Matrix4}
    (config : MaskConfig) (customMesh : option BufferGeometry)
    (customMeshMatrix : Matrix4) (s : Store) :
  symmetry config = true -> meshRef s <> None ->
  exists (n : nat) (insts : list InstanceData),
    instanceSet (useLayoutEffect config customMesh customMeshMatrix s)
    = Some (n, insts) /\
    n = List.length insts /\
    List.length insts
    = (2 * List.length (accepted config customMesh customMeshMatrix))%nat /\
    forall (k : nat) (a : InstanceData),
      nth_error (accepted config customMesh customMeshMatrix) k = Some a ->
      nth_error insts (2 * k) = Some a /\
      exists m : InstanceData,
        nth_error insts (2 * k + 1) = Some m /\
        inst_position m
        = mkVector3 (- vx (inst_position a)) (vy (inst_position a))
            (vz (inst_position a)) /\
        inst_scale m = inst_scale a /\
        inst_color m = inst_color a.
Proof.
  intros Hsym Hmesh.
  destruct (meshRef s) as [mesh |] eqn:E; [| contradiction].
  destruct (useLayoutEffect_generated config customMesh customMeshMatrix
              s mesh E) as [Hset _].
  rewrite generated_accepted in Hset.
  unfold emitted in Hset. rewrite Hsym in Hset.
  eexists _, _. split; [exact Hset |].
  split; [reflexivity |]. split; [apply length_pairs |].
  intros k a Hk.
  destruct (nth_error_pairs mirrored _ k a Hk) as [He Ho].
  split; [exact He |].
  exists (mirrored a). now repeat split.
Qed.

Lemma symmetry_mirrored_pairs_witness :
  symmetry DEFAULT_CONFIG = true /\
  meshRef (mountedStore DEFAULT_CONFIG) <> None /\
  exists (n : nat) (insts : list InstanceData),
    instanceSet (useLayoutEffect DEFAULT_CONFIG None tt
                   (mountedStore DEFAULT_CONFIG))
    = Some (n, insts) /\
    n = List.length insts /\
    List.length insts
    = (2 * List.length (accepted DEFAULT_CONFIG None tt))%nat /\
    forall (k : nat) (a : InstanceData),
      nth_error (accepted DEFAULT_CONFIG None tt) k = Some a ->
      nth_error insts (2 * k) = Some a /\
      exists m : InstanceData,
        nth_error insts (2 * k + 1) = Some m /\
        inst_position m
        = mkVector3 (- vx (inst_position a)) (vy (inst_position a))
            (vz (inst_position a)) /\
        inst_scale m = inst_scale a /\
        inst_color m = inst_color a.
Proof.
  split; [reflexivity | split; [discriminate |]].
  apply (symmetry_mirrored_pairs DEFAULT_CONFIG None tt
           (mountedStore DEFAULT_CONFIG)); [reflexivity | discriminate].
Defined.

(** ** Numeric bounds *)

Lemma PI_bounds : 3.14159 < PI < 3.1416.
Proof.
  pose proof (PI_2_3_7_ineq 2) as H1.
  unfold sum_f_R0, tg_alt, PI_2_3_7_tg, Ratan_seq in H1.
  simpl in H1. lra.
Qed.

Lemma cos_lower (a : R) : -2 <= a <= 2 -> 1 - a * a / 2 <= cos a.
Proof.
  intros [Hl Hu].
  destruct (pre_cos_bound a 0 Hl Hu) as [Hc _].
  unfold cos_approx, cos_term in Hc. simpl in Hc. lra.
Qed.

Lemma sqrt_lower (x y : R) : 0 <= x -> x * x <= y -> x <= sqrt y.
Proof.
  intros Hx Hxy. rewrite <- (sqrt_square x Hx). now apply sqrt_le_1_alt.
Qed.

(** ** Depth colouring *)

(** The first sample of the spiral is the centre of the parametric domain;
    on the default head it is accepted and lies in front of the plane
    [z = 0.8]. *)
Lemma sampleUV_spiral_first (n : nat) : sampleUV Spiral n 0 = (0, 0).
Proof.
  unfold sampleUV. simpl INR. rewrite sqrt_0.
  f_equal; unfold Rdiv; ring.
Qed.

Lemma eyeCutout_center : eyeCutout 0 0 Full = false.
Proof.
  unfold eyeCutout.
  rewrite !Rltb_ge; [reflexivity | |]; apply sqrt_lower; lra.
Qed.

Lemma facePoint_center (headWidthFactor : R) :
  vx (getFacePoint 0 0 headWidthFactor) = 0 /\
  0.8 < vz (getFacePoint 0 0 headWidthFactor).
Proof.
  unfold getFacePoint.
  replace (mapRange 0 (-1) 1 (- PI / 1.6) (PI / 1.6)) with 0
    by (unfold mapRange; lra).
  replace (mapRange 0 (-1) 1 (PI / 2.5) (- PI / 3)) with (PI / 30)
    by (unfold mapRange; lra).
  rewrite sin_0, cos_0.
  assert (Hbrow : Rabs (0 - 0.25) = 0.25).
  { rewrite Rabs_left; lra. }
  rewrite Hbrow.
  rewrite (Rltb_ge 0.25 0.2) by lra.
  rewrite (Rltb_ge 0 0) by lra.
  rewrite (Rltb_ge 0 (-0.7)) by lra.
  cbn [andb].
  pose proof PI_bounds as [Hpl Hpu].
  assert (Hcos : 0.99 < cos (PI / 30)).
  { pose proof (cos_lower (PI / 30)) as Hc. nra. }
  destruct (_ <? 0.3); cbn [vx vz]; split; try ring.
  - assert (0 <= (Rmax 0 (1 - sqrt (0 ^ 2 + (0 - -0.15) ^ 2) / 0.3)) ^ 2)
      by apply pow2_ge_0.
    lra.
  - lra.
Qed.

Lemma resolveSurface_center (config : MaskConfig) :
  0 <= offset config ->
  0.8 < vz (fst (resolveSurface config None tt 0 0)).
Proof.
  intros Hoff. unfold resolveSurface.
  destruct (facePoint_center (headWidth config)) as [Hx Hz].
  rewrite (Rltb_lt 0.8 _ Hz).
  rewrite Hx, Rabs_R0, (Rltb_lt 0 0.2) by lra.
  cbn [andb fst Vec.addVectors Vec.multiplyScalar vx vy vz]. nra.
Qed.

Lemma acceptedAt_default_first :
  exists a : InstanceData,
    acceptedAt DEFAULT_CONFIG None tt 0 = Some a /\
    0.8 < vz (inst_position a).
Proof.
  unfold acceptedAt.
  change (distribution DEFAULT_CONFIG) with Spiral.
  rewrite sampleUV_spiral_first.
  change (zone DEFAULT_CONFIG) with Full.
  rewrite eyeCutout_center. cbn [checkZone negb].
  pose proof (resolveSurface_center DEFAULT_CONFIG) as Hz.
  destruct (resolveSurface DEFAULT_CONFIG None tt 0 0) as [pFinal normal].
  eexists; split; [reflexivity |].
  cbn [inst_position]. apply Hz. cbn. lra.
Qed.

Section DepthColor.

Context {Matrix4 : Type} `{WorldTransform Matrix4}.
Variable config : MaskConfig.
Variable customMesh : option BufferGeometry.
Variable customMeshMatrix : Matrix4.

Lemma acceptedAt_color (i : nat) (a : InstanceData) :
  acceptedAt config customMesh customMeshMatrix i = Some a ->
  inst_color a = deriveColor config (inst_position a) (inst_normal a).
Proof.
  unfold acceptedAt. destruct (sampleUV _ _ _) as [u v].
  destruct (negb _); [discriminate |].
  destruct (eyeCutout _ _ _); [discriminate |].
  destruct (resolveSurface _ _ _ _ _) as [pFinal normal].
  intros E. injection E as <-. reflexivity.
Qed.

Lemma generated_inv (a : InstanceData) :
  In a (generated config customMesh customMeshMatrix) ->
  exists (i : nat) (b : InstanceData),
    (i < density config)%nat /\
    acceptedAt config customMesh customMeshMatrix i = Some b /\
    (a = b \/ a = mirrored b).
Proof.
  unfold generated. intros Hin. apply in_flat_map in Hin.
  destruct Hin as (i & Hi & Ha). apply in_seq in Hi.
  unfold emittedAt in Ha.
  destruct (acceptedAt config customMesh customMeshMatrix i) as [b |] eqn:E;
    [| contradiction].
  exists i, b. split; [lia |]. split; [exact E |].
  cbn [optionList flat_map] in Ha. rewrite app_nil_r in Ha.
  unfold emitted in Ha. destruct (symmetry config); cbn [In] in Ha.
  - destruct Ha as [<- | [<- | []]]; auto.
  - destruct Ha as [<- | []]; auto.
Qed.

Lemma depth_color_generated (a : InstanceData) :
  colorMode config = Depth ->
  In a (generated config customMesh customMeshMatrix) ->
  inst_color a
  = ColorHSL 0.5 0.8 (mapRange (vz (inst_position a)) 0 1.5 0.2 1.0 * 0.8).
Proof.
  intros Hmode Hin.
  destruct (generated_inv a Hin) as (i & b & _ & Hb & Ha).
  apply acceptedAt_color in Hb. unfold deriveColor in Hb.
  rewrite Hmode in Hb.
  destruct Ha as [-> | ->]; [exact Hb |].
  cbn [mirrored inst_color inst_position vz]. exact Hb.
Qed.

End DepthColor.

Lemma instanceSet_after_regeneration {Matrix4 : Type} `{WorldTransform Matrix4}
    (config : MaskConfig) (customMesh : option BufferGeometry)
    (customMeshMatrix : Matrix4) (s : Store) (n : nat)
    (insts : list InstanceData) :
  instanceSet (useLayoutEffect config customMesh customMeshMatrix s)
  = Some (n, insts) ->
  insts = generated config customMesh customMeshMatrix.
Proof.
  intros Hset.
  destruct (meshRef s) as [mesh |] eqn:E.
  2:{ unfold useLayoutEffect, instanceSet in Hset. rewrite E in Hset.
      rewrite E in Hset. discriminate. }
  destruct (useLayoutEffect_generated config customMesh customMeshMatrix
              s mesh E) as [Hgen _].
  rewrite Hgen in Hset. now injection Hset as _ <-.
Qed.

(** C5, amended.  In colour mode [Depth] every instance of the regenerated
    InstanceSet carries the HSL colour of hue 0.5 and saturation 0.8 whose
    lightness is 0.8 times the image of the instance's [z] under the linear
    map from [0, 1.5] to [0.2, 1.0]. *)
Theorem depth_color_lightness {Matrix4 : Type} `{WorldTransform Matrix4}
    (config : MaskConfig) (customMesh : option BufferGeometry)
    (customMeshMatrix : Matrix4) (s : Store) (n : nat)
    (insts : list InstanceData) (a : InstanceData) :
  colorMode config = Depth ->
  instanceSet (useLayoutEffect config customMesh customMeshMatrix s)
  = Some (n, insts) ->
  In a insts ->
  inst_color a
  = ColorHSL 0.5 0.8 (mapRange (vz (inst_position a)) 0 1.5 0.2 1.0 * 0.8).
Proof.
  intros Hmode Hset Hin.
  rewrite (instanceSet_after_regeneration _ _ _ _ _ _ Hset) in Hin.
  exact (depth_color_generated config customMesh customMeshMatrix a Hmode
           Hin).
Qed.

Lemma default_first_generated :
  exists a : InstanceData,
    In a (generated DEFAULT_CONFIG None tt) /\ 0.8 < vz (inst_position a).
Proof.
  destruct acceptedAt_default_first as (a & Ha & Hz).
  exists a. split; [| exact Hz].
  unfold generated. apply in_flat_map. exists 0%nat. split.
  - apply in_seq. cbn. lia.
  - unfold emittedAt. rewrite Ha. cbn. now left.
Qed.

(** C5, as stated, fails: on the default configuration the first instance
    has a lightness different from the plain image of its [z] under the map
    from [0, 1.5] to [0.2, 1.0], whatever hue and saturation are chosen. *)
Lemma depth_color_not_plain_mapping :
  colorMode DEFAULT_CONFIG = Depth /\
  exists (n : nat) (insts : list InstanceData) (a : InstanceData),
    instanceSet (useLayoutEffect DEFAULT_CONFIG None tt
                   (mountedStore DEFAULT_CONFIG))
    = Some (n, insts) /\
    In a insts /\
    forall h s : R,
      inst_color a
      <> ColorHSL h s (mapRange (vz (inst_position a)) 0 1.5 0.2 1.0).
Proof.
  split; [reflexivity |].
  destruct default_first_generated as (a & Hin & Hz).
  destruct (useLayoutEffect_generated DEFAULT_CONFIG None tt
              (mountedStore DEFAULT_CONFIG) _ eq_refl) as [Hset _].
  eexists _, _, a. split; [exact Hset |]. split; [exact Hin |].
  intros h s E.
  rewrite (depth_color_generated DEFAULT_CONFIG None tt a eq_refl Hin) in E.
  injection E as _ _ E. unfold mapRange in *. lra.
Qed.

Lemma depth_color_lightness_witness :
  colorMode DEFAULT_CONFIG = Depth /\
  exists (n : nat) (insts : list InstanceData) (a : InstanceData),
    instanceSet (useLayoutEffect DEFAULT_CONFIG None tt
                   (mountedStore DEFAULT_CONFIG))
    = Some (n, insts) /\
    In a insts /\
    inst_color a
    = ColorHSL 0.5 0.8 (mapRange (vz (inst_position a)) 0 1.5 0.2 1.0 * 0.8).
Proof.
  split; [reflexivity |].
  destruct default_first_generated as (a & Hin & _).
  destruct (useLayoutEffect_generated DEFAULT_CONFIG None tt
              (mountedStore DEFAULT_CONFIG) _ eq_refl) as [Hset _].
  eexists _, _, a. split; [exact Hset |]. split; [exact Hin |].
  exact (depth_color_lightness DEFAULT_CONFIG None tt
           (mountedStore DEFAULT_CONFIG) _ _ a eq_refl Hset Hin).
Defined.

(** ** Candidate coordinates *)

Lemma div_unit (c d : R) : 0 < d -> 0 <= c -> c <= d -> 0 <= c / d <= 1.
Proof.
  intros Hd Hc Hcd. unfold Rdiv.
  assert (Hi : 0 < / d) by now apply Rinv_0_lt_compat.
  split; [nra |].
  replace 1 with (d * / d) by (field; lra). nra.
Qed.

Lemma random_unit (offset : R) : 0 <= random offset < 1.
Proof.
  unfold random, floor.
  pose proof (Zfloor_bound (sin (seed + offset) * 10000)). lra.
Qed.

Lemma mapRange_unit (r : R) :
  0 <= r <= 1 -> -1 <= mapRange r 0 1 (-1) 1 <= 1.
Proof. intros Hr. unfold mapRange. lra. Qed.

Lemma mapRange_cell (c d : R) :
  0 < d -> mapRange c 0 d (-1) 1 = 2 * (c / d) - 1.
Proof. intros Hd. unfold mapRange. field. lra. Qed.

Lemma spiral_radius (count i : nat) :
  (i < count)%nat -> 0 <= sqrt (INR i) / sqrt (INR count) <= 1.
Proof.
  intros Hi.
  assert (Hc : 1 <= INR count).
  { change 1 with (INR 1). apply le_INR. lia. }
  assert (Hi' : INR i <= INR count) by (apply le_INR; lia).
  apply div_unit.
  - apply sqrt_lt_R0. lra.
  - apply sqrt_pos.
  - now apply sqrt_le_1_alt.
Qed.

Lemma grid_dim (count : nat) :
  (1 <= count)%nat -> 1 <= floor (sqrt (INR count)).
Proof.
  intros Hc. unfold floor. apply IZR_le.
  apply (Zfloor_lub 1). apply sqrt_lower; [lra |].
  change 1 with (INR 1) at 1 2. rewrite <- mult_INR. apply le_INR. lia.
Qed.

Lemma grid_row (i : R) (dim : R) :
  0 <= i -> 1 <= dim ->
  0 <= floor (i / dim) /\ floor (i / dim) <= i / dim.
Proof.
  intros Hi Hd. unfold floor.
  assert (Hq : 0 <= i / dim).
  { unfold Rdiv. assert (0 < / dim) by (apply Rinv_0_lt_compat; lra). nra. }
  split.
  - apply (IZR_le 0). now apply (Zfloor_lub 0).
  - apply Zfloor_bound.
Qed.

Lemma grid_col (i : R) (dim : R) :
  0 <= i -> 1 <= dim ->
  0 <= remainder i dim /\ remainder i dim <= dim.
Proof.
  intros Hi Hd. unfold remainder, trunc.
  assert (Hq : 0 <= i / dim).
  { unfold Rdiv. assert (0 < / dim) by (apply Rinv_0_lt_compat; lra). nra. }
  rewrite Rltb_ge by exact Hq.
  unfold floor. pose proof (Zfloor_bound (i / dim)) as [Hlo Hhi].
  assert (Hi' : i = i / dim * dim) by (field; lra).
  set (q := i / dim) in *. set (f := IZR (Zfloor q)) in *.
  split; nra.
Qed.

(** C6, amended.  For every density of at least 1 and every index below
    it, the candidate [u] lies in [-1, 1] under the three laws; [v] lies in
    [-1, 1] under the random law, in [-1.2, 1.2] under the spiral law, whose
    [v] is stretched by 1.2, and under the grid law [v] is at least [-1] and
    at most 1 when the density is a perfect square. *)
Theorem sampleUV_bounds (d : DistributionType) (count i : nat) :
  (1 <= count)%nat -> (i < count)%nat ->
  -1 <= fst (sampleUV d count i) <= 1 /\
  match d with
  | Random => -1 <= snd (sampleUV d count i) <= 1
  | Spiral => -1.2 <= snd (sampleUV d count i) <= 1.2
  | Grid =>
      -1 <= snd (sampleUV d count i) /\
      ((exists k : nat, count = (k * k)%nat) ->
       snd (sampleUV d count i) <= 1)
  end.
Proof.
  intros Hc Hi. destruct d; unfold sampleUV; cbn [fst snd].
  - (* Grid *)
    pose proof (grid_dim count Hc) as Hd.
    set (dim := floor (sqrt (INR count))) in *.
    assert (Hi0 : 0 <= INR i) by apply pos_INR.
    destruct (grid_row (INR i) dim Hi0 Hd) as [Hr0 Hr1].
    destruct (grid_col (INR i) dim Hi0 Hd) as [Hc0 Hc1].
    rewrite !mapRange_cell by lra.
    pose proof (div_unit (remainder (INR i) dim) dim) as Hu.
    assert (Hv : 0 <= floor (INR i / dim) / dim).
    { unfold Rdiv at 1.
      assert (0 < / dim) by (apply Rinv_0_lt_compat; lra). nra. }
    split; [lra |]. split; [lra |].
    intros [k Hk].
    assert (Hdim : dim = INR k).
    { unfold dim, floor. rewrite Hk, mult_INR, sqrt_square by apply pos_INR.
      rewrite INR_IZR_INZ. now rewrite ZfloorZ. }
    assert (Hik : INR i <= dim * dim).
    { rewrite Hdim, <- mult_INR. apply le_INR. lia. }
    assert (Hq : INR i / dim <= dim).
    { replace dim with (dim * dim / dim) at 2 by (field; lra).
      unfold Rdiv. assert (0 < / dim) by (apply Rinv_0_lt_compat; lra).
      nra. }
    pose proof (div_unit (floor (INR i / dim)) dim). lra.
  - (* Spiral *)
    pose proof (spiral_radius count i Hi) as Hr.
    set (r := sqrt (INR i) / sqrt (INR count)) in *.
    pose proof (COS_bound (INR i * 2.39996)).
    pose proof (SIN_bound (INR i * 2.39996)).
    split; [nra |]. nra.
  - (* Random *)
    pose proof (random_unit (INR i)).
    pose proof (random_unit (INR i + 1000)).
    split; apply mapRange_unit; lra.
Qed.

(** C6, as stated, fails: the spiral leaves the domain.  On the default
    configuration (400 samples) index 396 has [v > 1]: [396 * 2.39996] is
    within 0.054 of [302.5 * PI], where the sine is close to 1, and the
    radius is above 0.99. *)
Lemma spiral_sample_leaves_domain :
  (1 <= density DEFAULT_CONFIG)%nat /\
  (396 < density DEFAULT_CONFIG)%nat /\
  ~ (-1 <= snd (sampleUV (distribution DEFAULT_CONFIG)
                  (density DEFAULT_CONFIG) 396) <= 1).
Proof.
  split; [cbn; lia |]. split; [cbn; lia |].
  cbn [DEFAULT_CONFIG distribution density sampleUV snd].
  replace (INR 396) with 396 by (rewrite INR_IZR_INZ; reflexivity).
  replace (INR 400) with (20 * 20) by (rewrite INR_IZR_INZ; cbn; lra).
  rewrite (sqrt_square 20) by lra.
  pose proof PI_bounds as [Hpl Hpu].
  set (z := 396 * 2.39996 - 302.5 * PI).
  assert (Hz : 0.05 < z < 0.054) by (unfold z; lra).
  assert (Hsin : sin (396 * 2.39996) = cos z).
  { rewrite (cos_sin z), <- (sin_period (PI / 2 + z) 151).
    f_equal. unfold z. rewrite INR_IZR_INZ. cbn. lra. }
  rewrite Hsin.
  assert (Hc : 0.998 <= cos z).
  { pose proof (cos_lower z). nra. }
  assert (Hs : 0.99 <= sqrt 396 / 20).
  { assert (19.8 <= sqrt 396) by (apply sqrt_lower; lra). lra. }
  intros [_ Hv]. nra.
Qed.

Lemma sampleUV_bounds_witness :
  (1 <= 400)%nat /\ (396 < 400)%nat /\
  -1 <= fst (sampleUV Spiral 400 396) <= 1 /\
  -1.2 <= snd (sampleUV Spiral 400 396) <= 1.2.
Proof.
  split; [lia | split; [lia |]].
  apply (sampleUV_bounds Spiral 400 396); lia.
Defined.

(** The grid law can leave the domain as well when the density is not a
    perfect square: with 120 samples the grid is 10 wide and index 110
    starts an eleventh row. *)
Lemma grid_sample_row_overflow : snd (sampleUV Grid 120 110) = 1.2.
Proof.
  unfold sampleUV; cbn [snd].
  assert (Hdim : floor (sqrt (INR 120)) = 10).
  { unfold floor. f_equal. apply Zfloor_eq.
    replace (INR 120) with 120 by (rewrite INR_IZR_INZ; reflexivity).
    split.
    - apply sqrt_lower; lra.
    - apply Rle_lt_trans with (sqrt (10.99 * 10.99)).
      + apply sqrt_le_1_alt; lra.
      + rewrite sqrt_square; lra. }
  rewrite Hdim.
  replace (INR 110 / 10) with 11
    by (rewrite INR_IZR_INZ; cbn; lra).
  unfold floor. rewrite ZfloorZ. unfold mapRange. lra.
Qed.

(** ** The frame handler: bind phase *)

Lemma bindStep_keeps_range (p : Vector3) (L : list Vector3) (n : nat)
    (l : list nat) :
  forall st : option R * Z,
    (forall k, In k l -> (k < n)%nat) ->
    (0 <= snd st < Z.of_nat n)%Z ->
    (0 <= snd (fold_left (fun s k => bindStep p L k s) l st) < Z.of_nat n)%Z.
Proof.
  induction l as [| k l IH]; intros st Hl Hst; [exact Hst |].
  cbn [fold_left]. apply IH.
  - intros j Hj. apply Hl. now right.
  - unfold bindStep. destruct (ltInfinity _ _); [| exact Hst].
    cbn [snd]. specialize (Hl k (or_introl eq_refl)). lia.
Qed.

Lemma bindLoop_range (p : Vector3) (L : list Vector3) :
  L <> [] ->
  (0 <= snd (forLoop (List.length L) 0 1 (INR (List.length L))
               (bindStep p L) (None, (-1)%Z))
   < Z.of_nat (List.length L))%Z.
Proof.
  intros HL. rewrite forLoop_seq.
  destruct L as [| l0 L]; [contradiction |].
  cbn [List.length seq fold_left].
  apply bindStep_keeps_range.
  - intros k Hk. apply in_seq in Hk. lia.
  - unfold bindStep. cbn [fst ltInfinity snd]. lia.
Qed.

Lemma lookupZ_in_range {A : Type} (l : list A) (i : Z) :
  (0 <= i < Z.of_nat (List.length l))%Z -> exists a, lookupZ l i = Some a.
Proof.
  intros Hi. unfold lookupZ.
  destruct (i <? 0)%Z eqn:E; [lia |].
  destruct (nth_error l (Z.to_nat i)) as [a |] eqn:En; [now exists a |].
  apply nth_error_None in En. lia.
Qed.

Lemma bindInstance_anchored (L : list Vector3) (inst : InstanceData) :
  L <> [] ->
  exists anchor : Anchor,
    bindInstance L inst = Ok anchor /\ anchoredTo L inst anchor.
Proof.
  intros HL. unfold bindInstance.
  pose proof (bindLoop_range (inst_position inst) L HL) as Hr.
  destruct (forLoop _ _ _ _ _ _) as [minDist closestIndex].
  cbn [snd] in Hr.
  destruct (lookupZ_in_range L closestIndex Hr) as [pt Hpt].
  rewrite Hpt. cbn [defined bind].
  eexists; split; [reflexivity |].
  split; [exact Hr |]. exists pt. now split.
Qed.

Lemma mapResult_Forall2 {A B : Type} (f : A -> Result B) (P : A -> B -> Prop)
    (l : list A) :
  (forall a, exists b, f a = Ok b /\ P a b) ->
  exists bs, mapResult f l = Ok bs /\ Forall2 P l bs.
Proof.
  intros Hf. induction l as [| a l (bs & Hbs & HP)].
  - exists []. now split.
  - destruct (Hf a) as (b & Hb & Hab).
    exists (b :: bs). cbn [mapResult]. rewrite Hb, Hbs.
    split; [reflexivity | now constructor].
Qed.

(** On a store that holds instances and no anchors, a frame with a
    non-empty cloud runs the bind phase: it succeeds, touches nothing but
    [anchorsRef] and records one anchor per instance. *)
Lemma useFrame_binds (s : Store) (mesh : InstancedMesh)
    (insts : list InstanceData) (L : list Vector3) :
  meshRef s = Some mesh ->
  userData_instances mesh = Some insts ->
  anchorsRef s = None ->
  L <> [] ->
  exists anchors : list Anchor,
    useFrame (Some L) s
    = Ok (mkStore (tempObj s) (tempColor s) (meshRef s) (Some anchors)) /\
    Forall2 (anchoredTo L) insts anchors.
Proof.
  intros Hmesh Hinsts Hanchors HL.
  destruct (mapResult_Forall2 (bindInstance L) (anchoredTo L) insts)
    as (anchors & Hmap & Hall).
  { intros a. now apply bindInstance_anchored. }
  exists anchors. split; [| exact Hall].
  unfold useFrame. rewrite Hmesh.
  destruct L as [| l0 L]; [contradiction |].
  rewrite Hinsts, Hanchors, Hmap. reflexivity.
Qed.

(** ** The frame handler: update phase *)

Lemma setMatrixAt_same (m : InstancedMesh) (i : nat) (x : InstanceMatrix) :
  instanceMatrix (setMatrixAt m i x) i = x.
Proof. cbn. now rewrite Nat.eqb_refl. Qed.

Lemma setMatrixAt_other (m : InstancedMesh) (i k : nat) (x : InstanceMatrix) :
  k <> i -> instanceMatrix (setMatrixAt m i x) k = instanceMatrix m k.
Proof. intros Hk. cbn. apply Nat.eqb_neq in Hk. now rewrite Hk. Qed.

Lemma forEachAnchor_runs (L : list Vector3) (insts : list InstanceData) :
  forall (anchors : list Anchor) (idx : nat) (st : Object3D * InstancedMesh),
    (forall j a, nth_error anchors j = Some a ->
       (exists lm, lookupZ L (landmarkIndex a) = Some lm) /\
       (exists inst, nth_error insts (idx + j) = Some inst)) ->
    exists st' : Object3D * InstancedMesh,
      forEachAnchor L insts anchors idx st = Ok st' /\
      userData_instances (snd st') = userData_instances (snd st) /\
      count (snd st') = count (snd st) /\
      (forall k, (k < idx)%nat ->
         instanceMatrix (snd st') k = instanceMatrix (snd st) k) /\
      (forall j a lm, nth_error anchors j = Some a ->
         lookupZ L (landmarkIndex a) = Some lm ->
         m_position (instanceMatrix (snd st') (idx + j))
         = Vec.addVectors lm (anchorOffset a)).
Proof.
  induction anchors as [| a anchors IH]; intros idx st Hacc.
  - exists st. cbn [forEachAnchor]. repeat split; auto.
    intros j a lm Hj. destruct j; discriminate.
  - destruct (Hacc 0%nat a eq_refl) as [[lm Hlm] [inst Hinst]].
    rewrite Nat.add_0_r in Hinst.
    cbn [forEachAnchor]. unfold updateStep. destruct st as [obj mesh].
    rewrite Hlm, Hinst. cbn [defined bind].
    match goal with
    | |- context [forEachAnchor L insts anchors (S idx) ?st1] =>
        destruct (IH (S idx) st1) as (st' & Hrun & Hdata & Hcount & Hlow & Hpos)
    end.
    { intros j b Hj. specialize (Hacc (S j) b Hj).
      now replace (S idx + j)%nat with (idx + S j)%nat by lia. }
    exists st'. split; [exact Hrun |].
    cbn [snd] in Hdata, Hcount, Hlow, Hpos |- *.
    split; [exact Hdata |]. split; [exact Hcount |]. split.
    + intros k Hk. rewrite Hlow by lia. apply setMatrixAt_other. lia.
    + intros j b lm' Hj Hlm'. destruct j as [| j].
      * injection Hj as <-. rewrite Hlm in Hlm'. injection Hlm' as <-.
        rewrite Nat.add_0_r, Hlow by lia.
        rewrite setMatrixAt_same. reflexivity.
      * replace (idx + S j)%nat with (S idx + j)%nat by lia.
        now apply Hpos.
Qed.

Lemma Forall2_nth_error {A B : Type} (P : A -> B -> Prop) (l : list A)
    (l' : list B) :
  Forall2 P l l' ->
  forall (i : nat) (x : A),
    nth_error l i = Some x -> exists y, nth_error l' i = Some y /\ P x y.
Proof.
  induction 1 as [| x0 y0 l l' Hxy _ IH]; intros i x Hi.
  - destruct i; discriminate.
  - destruct i as [| i].
    + injection Hi as <-. exists y0. now split.
    + now apply IH.
Qed.

Lemma Forall2_nth_error_rev {A B : Type} (P : A -> B -> Prop) (l : list A)
    (l' : list B) :
  Forall2 P l l' ->
  forall (i : nat) (y : B),
    nth_error l' i = Some y -> exists x, nth_error l i = Some x /\ P x y.
Proof.
  induction 1 as [| x0 y0 l l' Hxy _ IH]; intros i y Hi.
  - destruct i; discriminate.
  - destruct i as [| i].
    + injection Hi as <-. exists x0. now split.
    + now apply IH.
Qed.

(** On a bound store, a frame with a non-empty cloud that covers every
    landmark index of the table runs the update phase: it succeeds, keeps
    the table and the instances, and writes into slot [j] the landmark of
    anchor [j] moved by the anchor's offset. *)
Lemma useFrame_updates (s : Store) (mesh : InstancedMesh)
    (insts : list InstanceData) (anchors : list Anchor) (L : list Vector3) :
  meshRef s = Some mesh ->
  userData_instances mesh = Some insts ->
  anchorsRef s = Some anchors ->
  L <> [] ->
  List.length anchors = List.length insts ->
  (forall a, In a anchors -> exists lm, lookupZ L (landmarkIndex a) = Some lm) ->
  exists (obj : Object3D) (mesh' : InstancedMesh),
    useFrame (Some L) s
    = Ok (mkStore obj (tempColor s) (Some mesh') (Some anchors)) /\
    userData_instances mesh' = Some insts /\
    count mesh' = count mesh /\
    forall j a lm,
      nth_error anchors j = Some a ->
      lookupZ L (landmarkIndex a) = Some lm ->
      m_position (instanceMatrix mesh' j) = Vec.addVectors lm (anchorOffset a).
Proof.
  intros Hmesh Hinsts Hanchors HL Hlen Hcover.
  destruct (forEachAnchor_runs L insts anchors 0 (tempObj s, mesh))
    as ([obj mesh'] & Hrun & Hdata & Hcount & _ & Hpos).
  { intros j a Hj. split.
    - apply Hcover. eapply nth_error_In; eauto.
    - cbn [Nat.add].
      destruct (nth_error insts j) as [inst |] eqn:E; [now exists inst |].
      apply nth_error_None in E.
      assert (j < List.length anchors)%nat
        by (apply nth_error_Some; congruence).
      lia. }
  exists obj, mesh'. cbn [snd] in Hdata, Hcount, Hpos.
  split; [| split; [congruence | split; [exact Hcount | exact Hpos]]].
  unfold useFrame. rewrite Hmesh.
  destruct L as [| l0 L]; [contradiction |].
  rewrite Hinsts, Hanchors, Hrun. reflexivity.
Qed.

Lemma lookupZ_translate (delta : Vector3) (L : list Vector3) (i : Z)
    (p : Vector3) :
  lookupZ L i = Some p ->
  lookupZ (translateCloud delta L) i = Some (Vec.addVectors p delta).
Proof.
  unfold lookupZ, translateCloud. destruct (i <? 0)%Z; [discriminate |].
  intros Hp. now rewrite nth_error_map, Hp.
Qed.

(** C3.  After the bind phase ran against the cloud [L], an update phase
    run with [L] translated by [delta] writes, for every instance, a
    transform whose position is the instance's rest position plus
    [delta]. *)
Theorem update_pure_translation (s : Store) (mesh : InstancedMesh)
    (insts : list InstanceData) (L : list Vector3) (delta : Vector3) :
  meshRef s = Some mesh ->
  userData_instances mesh = Some insts ->
  anchorsRef s = None ->
  L <> [] ->
  exists (s1 s2 : Store) (mesh2 : InstancedMesh),
    useFrame (Some L) s = Ok s1 /\
    useFrame (Some (translateCloud delta L)) s1 = Ok s2 /\
    meshRef s2 = Some mesh2 /\
    forall (i : nat) (inst : InstanceData),
      nth_error insts i = Some inst ->
      m_position (instanceMatrix mesh2 i)
      = Vec.addVectors (inst_position inst) delta.
Proof.
  intros Hmesh Hinsts Hanchors HL.
  destruct (useFrame_binds s mesh insts L Hmesh Hinsts Hanchors HL)
    as (anchors & Hbind & Hall).
  set (s1 := mkStore (tempObj s) (tempColor s) (meshRef s) (Some anchors))
    in *.
  assert (HL' : translateCloud delta L <> []).
  { destruct L; [contradiction | discriminate]. }
  destruct (useFrame_updates s1 mesh insts anchors (translateCloud delta L))
    as (obj & mesh2 & Hup & _ & _ & Hpos); auto.
  { symmetry. eapply Forall2_length; eauto. }
  { intros a Ha. apply In_nth_error in Ha. destruct Ha as [j Hj].
    destruct (Forall2_nth_error_rev _ _ _ Hall j a Hj)
      as (inst & _ & _ & pt & Hpt & _).
    exists (Vec.addVectors pt delta). apply lookupZ_translate. exact Hpt. }
  exists s1, (mkStore obj (tempColor s1) (Some mesh2) (Some anchors)), mesh2.
  split; [exact Hbind |]. split; [exact Hup |]. split; [reflexivity |].
  intros i inst Hi.
  destruct (Forall2_nth_error _ _ _ Hall i inst Hi)
    as (a & Ha & _ & pt & Hpt & Hoff).
  rewrite (Hpos i a _ Ha (lookupZ_translate delta L _ pt Hpt)), Hoff.
  unfold Vec.addVectors, Vec.subVectors. cbn [vx vy vz].
  f_equal; ring.
Qed.

Lemma update_pure_translation_witness :
  meshRef unboundStore = Some unboundMesh /\
  userData_instances unboundMesh = Some [staleInstance] /\
  anchorsRef unboundStore = None /\
  cloud2 <> [] /\
  exists (s1 s2 : Store) (mesh2 : InstancedMesh),
    useFrame (Some cloud2) unboundStore = Ok s1 /\
    useFrame (Some (translateCloud shift cloud2)) s1 = Ok s2 /\
    meshRef s2 = Some mesh2 /\
    forall (i : nat) (inst : InstanceData),
      nth_error [staleInstance] i = Some inst ->
      m_position (instanceMatrix mesh2 i)
      = Vec.addVectors (inst_position inst) shift.
Proof.
  split; [reflexivity |]. split; [reflexivity |]. split; [reflexivity |].
  split; [discriminate |].
  apply (update_pure_translation unboundStore unboundMesh [staleInstance]
           cloud2 shift);
    [reflexivity | reflexivity | reflexivity | discriminate].
Defined.

(** ** The frame handler: landmark indexing *)





(** ** The frame handler: loss of the face *)




(** The regeneration is what unbinds: it always resets the anchors. *)
Lemma regeneration_resets_anchors {Matrix4 : Type} `{WorldTransform Matrix4}
    (config : MaskConfig) (customMesh : option BufferGeometry)
    (customMeshMatrix : Matrix4) (s : Store) :
  meshRef s <> None ->
  anchorsRef (useLayoutEffect config customMesh customMeshMatrix s) = None.
Proof.
  intros Hmesh. destruct (meshRef s) as [mesh |] eqn:E; [| contradiction].
  exact (proj2 (useLayoutEffect_generated config customMesh customMeshMatrix
                  s mesh E)).
Qed.

(** * Part III: further properties of the code *)

(** ** [mapRange] *)

(** X1.  With a non-degenerate input interval [mapRange] sends its ends to
    the ends of the output interval, and a value inside the input interval
    to a value inside the output interval. *)
Theorem mapRange_interval (value inMin inMax outMin outMax : R) :
  inMin < inMax -> outMin <= outMax -> inMin <= value <= inMax ->
  mapRange inMin inMin inMax outMin outMax = outMin /\
  mapRange inMax inMin inMax outMin outMax = outMax /\
  outMin <= mapRange value inMin inMax outMin outMax <= outMax.
Proof.
  intros Hin Hout Hv. unfold mapRange.
  assert (Hd : 0 < inMax - inMin) by lra.
  split; [| split].
  - field. lra.
  - field. lra.
  - pose proof (div_unit (value - inMin) (inMax - inMin)) as Hu.
    replace ((value - inMin) * (outMax - outMin) / (inMax - inMin))
      with ((value - inMin) / (inMax - inMin) * (outMax - outMin))
      by (field; lra).
    assert (0 <= (value - inMin) / (inMax - inMin) <= 1) by (apply Hu; lra).
    nra.
Qed.

Lemma mapRange_interval_witness :
  -1 < 1 /\ 0.2 <= 1.0 /\ -1 <= 0.5 <= 1 /\
  mapRange (-1) (-1) 1 0.2 1.0 = 0.2 /\
  mapRange 1 (-1) 1 0.2 1.0 = 1.0 /\
  0.2 <= mapRange 0.5 (-1) 1 0.2 1.0 <= 1.0.
Proof.
  split; [lra |]. split; [lra |]. split; [lra |].
  apply (mapRange_interval 0.5 (-1) 1 0.2 1.0); lra.
Defined.

(** ** The zone mask *)

Lemma sqrt_lt_square (x c : R) :
  0 <= x -> 0 < c -> (sqrt x <? c) = (x <? c * c).
Proof.
  intros Hx Hc. destruct (Rlt_dec x (c * c)) as [Hlt | Hge].
  - rewrite (Rltb_lt x _ Hlt). apply Rltb_lt.
    rewrite <- (sqrt_square c) by lra. apply sqrt_lt_1_alt. lra.
  - rewrite (Rltb_ge x) by lra. apply Rltb_ge. apply sqrt_lower; lra.
Qed.

Lemma sum_squares_nonneg (a b : R) : 0 <= a ^ 2 + b ^ 2.
Proof. nra. Qed.

(** X2.  Every zone is symmetric about the sagittal plane: a sample and its
    mirror image are inside the same zones, and either both or neither fall
    into the eye cutout of the placement loop. *)
Theorem zone_mirror_symmetric (u v : R) (zone : ZoneType) :
  checkZone (- u) v zone = checkZone u v zone /\
  eyeCutout (- u) v zone = eyeCutout u v zone.
Proof.
  assert (H1 : forall c, (- u - - c) ^ 2 = (u - c) ^ 2) by (intros; ring).
  assert (H2 : forall c, (- u - c) ^ 2 = (u - - c) ^ 2) by (intros; ring).
  assert (H3 : (- u - -0.4) ^ 2 = (u - 0.4) ^ 2) by nra.
  assert (H4 : (- u - 0.4) ^ 2 = (u - -0.4) ^ 2) by nra.
  assert (H5 : (- u - -0.35) ^ 2 = (u - 0.35) ^ 2) by nra.
  assert (H6 : (- u - 0.35) ^ 2 = (u - -0.35) ^ 2) by nra.
  split; destruct zone; unfold checkZone, eyeCutout;
    rewrite ?Rabs_Ropp, ?H3, ?H4, ?H5, ?H6; try reflexivity.
  - destruct ((v >? 0.1) && (v <? 0.6) && (Rabs u <? 0.85));
      [| reflexivity].
    now rewrite orb_comm.
  - apply orb_comm.
  - apply orb_comm.
Qed.

(** X3.  The domino zone shares no sample with the respirator zone nor with
    the jaw zone. *)
Theorem domino_disjoint (u v : R) :
  checkZone u v Domino = true ->
  checkZone u v Respirator = false /\ checkZone u v Jaw = false.
Proof.
  unfold checkZone. destruct (v >? 0.1) eqn:Hv; [| discriminate].
  apply Rltb_true in Hv. intros _.
  rewrite (Rltb_ge v (-0.1)), (Rltb_ge v (-0.4)), (Rltb_ge v 0) by lra.
  split; [reflexivity |]. cbn. now rewrite andb_false_r.
Qed.

Lemma domino_disjoint_witness :
  checkZone 0 0.35 Domino = true /\
  checkZone 0 0.35 Respirator = false /\ checkZone 0 0.35 Jaw = false.
Proof.
  assert (H : checkZone 0 0.35 Domino = true).
  { unfold checkZone.
    rewrite !sqrt_lt_square by (try apply sum_squares_nonneg; lra).
    rewrite Rabs_R0.
    rewrite (Rltb_lt 0.1 0.35), (Rltb_lt 0.35 0.6), (Rltb_lt 0 0.85) by lra.
    rewrite !Rltb_ge by nra. reflexivity. }
  split; [exact H |]. exact (domino_disjoint 0 0.35 H).
Defined.

(** ** The surface model, continued *)

Lemma theta_linear (u : R) :
  mapRange u (-1) 1 (- PI / 1.6) (PI / 1.6) = u * (PI / 1.6).
Proof. unfold mapRange. field. lra. Qed.

(** X4.  The head is symmetric about the sagittal plane: mirroring [u]
    negates [x] and leaves [y] and [z] as they are. *)
Theorem getFacePoint_mirror (u v headWidthFactor : R) :
  getFacePoint (- u) v headWidthFactor
  = mkVector3 (- vx (getFacePoint u v headWidthFactor))
      (vy (getFacePoint u v headWidthFactor))
      (vz (getFacePoint u v headWidthFactor)).
Proof.
  unfold getFacePoint. rewrite !theta_linear.
  replace (- u * (PI / 1.6)) with (- (u * (PI / 1.6))) by ring.
  rewrite sin_neg, cos_neg, Rabs_Ropp.
  replace ((- u) ^ 2) with (u ^ 2) by ring.
  set (theta := u * (PI / 1.6)).
  set (phi := mapRange v _ _ _ _).
  set (noseDist := sqrt _).
  set (cheekDist := Rabs (Rabs u - 0.55)).
  set (browDist := Rabs (v - 0.25)).
  assert (Hsign : cheekDist < 0.3 ->
            (if - u >? 0 then 1 else -1) = - (if u >? 0 then 1 else -1)).
  { intros Hc. unfold cheekDist in Hc.
    destruct (Rlt_dec 0 u) as [Hu | Hu].
    - rewrite (Rltb_lt 0 u Hu), (Rltb_ge 0 (- u)) by lra. lra.
    - assert (u <> 0).
      { intros ->. rewrite Rabs_R0 in Hc.
        rewrite Rabs_left in Hc; lra. }
      rewrite (Rltb_ge 0 u), (Rltb_lt 0 (- u)) by lra. lra. }
  destruct (noseDist <? 0.3);
    destruct ((browDist <? 0.2) && (Rabs u <? 0.7));
    destruct ((v <? 0) && (v >? -0.5));
    destruct (cheekDist <? 0.3) eqn:Hc;
    try (apply Rltb_true in Hc; rewrite (Hsign Hc));
    destruct (v <? -0.7); cbn [vx vy vz]; f_equal; ring.
Qed.

(** ** The grid law *)

Lemma floor_sqrt_INR (n : nat) : floor (sqrt (INR n)) = INR (Nat.sqrt n).
Proof.
  unfold floor. rewrite (INR_IZR_INZ (Nat.sqrt n)). f_equal.
  apply Zfloor_eq. rewrite <- INR_IZR_INZ.
  destruct (Nat.sqrt_spec n (Nat.le_0_l n)) as [Hlo Hhi].
  split.
  - apply sqrt_lower; [apply pos_INR |].
    rewrite <- mult_INR. apply le_INR. exact Hlo.
  - apply Rlt_le_trans with (sqrt (INR (S (Nat.sqrt n)) * INR (S (Nat.sqrt n)))).
    + apply sqrt_lt_1_alt. split; [apply pos_INR |].
      rewrite <- mult_INR. apply lt_INR. exact Hhi.
    + rewrite sqrt_square by apply pos_INR. rewrite S_INR. lra.
Qed.

Lemma floor_div_INR (i d : nat) :
  (0 < d)%nat -> floor (INR i / INR d) = INR (i / d).
Proof.
  intros Hd. unfold floor. rewrite (INR_IZR_INZ (i / d)). f_equal.
  apply Zfloor_eq. rewrite <- INR_IZR_INZ.
  assert (Hd' : 0 < INR d) by (apply lt_0_INR; exact Hd).
  pose proof (Nat.div_mod_eq i d) as Hdiv.
  pose proof (Nat.mod_upper_bound i d ltac:(lia)) as Hmod.
  assert (Hi : INR i = INR d * INR (i / d) + INR (i mod d)).
  { rewrite <- mult_INR, <- plus_INR. f_equal. exact Hdiv. }
  assert (Hm : 0 <= INR (i mod d) < INR d).
  { split; [apply pos_INR | apply lt_INR; exact Hmod]. }
  assert (Hq : INR i / INR d = INR (i / d) + INR (i mod d) / INR d).
  { rewrite Hi. field. lra. }
  rewrite Hq.
  assert (0 <= INR (i mod d) / INR d < 1).
  { split.
    - apply Rmult_le_pos; [lra |]. apply Rlt_le, Rinv_0_lt_compat. lra.
    - apply Rmult_lt_reg_r with (INR d); [lra |].
      unfold Rdiv. rewrite Rmult_assoc, Rinv_l by lra. lra. }
  lra.
Qed.

Lemma remainder_INR (i d : nat) :
  (0 < d)%nat -> remainder (INR i) (INR d) = INR (i mod d).
Proof.
  intros Hd. unfold remainder, trunc.
  assert (Hd' : 0 < INR d) by (apply lt_0_INR; exact Hd).
  rewrite Rltb_ge.
  2:{ apply Rmult_le_pos; [apply pos_INR |].
      apply Rlt_le, Rinv_0_lt_compat. lra. }
  rewrite floor_div_INR by exact Hd.
  pose proof (Nat.div_mod_eq i d) as Hdiv.
  assert (Hi : INR i = INR d * INR (i / d) + INR (i mod d)).
  { rewrite <- mult_INR, <- plus_INR. f_equal. exact Hdiv. }
  lra.
Qed.

(** X5.  The grid law is an integer grid: with [dim] the integer square
    root of the density, index [i] is the cell of column [i mod dim] and
    row [i / dim], and [u] and [v] are [2 col / dim - 1] and
    [2 row / dim - 1]. *)
Theorem grid_cell (count i : nat) :
  (1 <= count)%nat ->
  let dim := Nat.sqrt count in
  sampleUV Grid count i
  = (2 * INR (i mod dim) / INR dim - 1, 2 * INR (i / dim) / INR dim - 1).
Proof.
  intros Hc dim. unfold sampleUV.
  assert (Hdim : (0 < dim)%nat).
  { pose proof (Nat.sqrt_spec count (Nat.le_0_l count)) as [_ Hhi].
    fold dim in Hhi. destruct dim; [cbn in Hhi; lia | lia]. }
  rewrite floor_sqrt_INR. fold dim.
  rewrite floor_div_INR, remainder_INR by exact Hdim.
  assert (0 < INR dim) by (apply lt_0_INR; exact Hdim).
  unfold mapRange. f_equal; field; lra.
Qed.

Lemma grid_cell_witness :
  (1 <= 120)%nat /\
  sampleUV Grid 120 110
  = (2 * INR (110 mod Nat.sqrt 120) / INR (Nat.sqrt 120) - 1,
     2 * INR (110 / Nat.sqrt 120) / INR (Nat.sqrt 120) - 1).
Proof.
  split; [lia |]. apply (grid_cell 120 110). lia.
Defined.

(** ** Nearest-candidate searches *)











(** ** Vectors *)

Lemma length_sqr (a : Vector3) :
  Vec.length a * Vec.length a = vx a * vx a + vy a * vy a + vz a * vz a.
Proof. unfold Vec.length. apply sqrt_sqrt. nra. Qed.

Lemma length_nonneg (a : Vector3) : 0 <= Vec.length a.
Proof. apply sqrt_pos. Qed.

Lemma normalize_divisor (a : Vector3) :
  0 < (if Req_dec_T (Vec.length a) 0 then 1 else Vec.length a).
Proof.
  destruct (Req_dec_T (Vec.length a) 0); [lra |].
  pose proof (length_nonneg a). lra.
Qed.

Lemma normalize_unitOrZero (a : Vector3) : unitOrZero (Vec.normalize a).
Proof.
  unfold unitOrZero, Vec.normalize, Vec.divideScalar, Vec.multiplyScalar.
  pose proof (length_sqr a) as Hsq.
  destruct (Req_dec_T (Vec.length a) 0) as [Hz | Hnz].
  - right. unfold Vec.length at 1. cbn [vx vy vz].
    replace (vx a * (1 / 1) * (vx a * (1 / 1)) +
             vy a * (1 / 1) * (vy a * (1 / 1)) +
             vz a * (1 / 1) * (vz a * (1 / 1)))
      with (vx a * vx a + vy a * vy a + vz a * vz a) by (field; lra).
    exact Hz.
  - left. unfold Vec.length at 1. cbn [vx vy vz].
    replace (vx a * (1 / Vec.length a) * (vx a * (1 / Vec.length a)) +
             vy a * (1 / Vec.length a) * (vy a * (1 / Vec.length a)) +
             vz a * (1 / Vec.length a) * (vz a * (1 / Vec.length a)))
      with ((vx a * vx a + vy a * vy a + vz a * vz a)
            / (Vec.length a * Vec.length a)) by (field; exact Hnz).
    rewrite <- Hsq.
    replace (Vec.length a * Vec.length a / (Vec.length a * Vec.length a))
      with 1 by (field; exact Hnz).
    apply sqrt_1.
Qed.

Lemma normalize_dot_nonneg (a : Vector3) : 0 <= Vec.dot (Vec.normalize a) a.
Proof.
  unfold Vec.normalize, Vec.divideScalar, Vec.multiplyScalar, Vec.dot.
  cbn [vx vy vz].
  pose proof (normalize_divisor a) as Hd.
  set (l := if Req_dec_T (Vec.length a) 0 then 1 else Vec.length a) in *.
  assert (0 < 1 / l) by (apply Rdiv_lt_0_compat; lra).
  nra.
Qed.

Lemma negate_unitOrZero (n : Vector3) :
  unitOrZero n -> unitOrZero (Vec.negate n).
Proof.
  unfold unitOrZero, Vec.negate, Vec.length. cbn [vx vy vz].
  now replace (- vx n * - vx n + - vy n * - vy n + - vz n * - vz n)
    with (vx n * vx n + vy n * vy n + vz n * vz n) by ring.
Qed.

(** ** Point-cloud normals, continued *)

Lemma length_writeAt (l : list R) :
  forall (i : nat) (x : R), List.length (writeAt l i x) = List.length l.
Proof.
  induction l as [| y l IH]; intros [| i] x; cbn [writeAt List.length];
    auto.
Qed.

Lemma length_writeVector (l : list R) (i : nat) (n : Vector3) :
  List.length (writeVector l i n) = List.length l.
Proof. unfold writeVector. now rewrite !length_writeAt. Qed.

Lemma nth_writeAt_same (l : list R) :
  forall (i : nat) (x : R),
    (i < List.length l)%nat -> nth i (writeAt l i x) 0 = x.
Proof.
  induction l as [| y l IH]; intros [| i] x Hi; cbn in Hi |- *;
    try lia; auto.
  apply IH. lia.
Qed.

Lemma nth_writeAt_other (l : list R) :
  forall (i j : nat) (x : R),
    i <> j -> nth j (writeAt l i x) 0 = nth j l 0.
Proof.
  induction l as [| y l IH]; intros [| i] [| j] x Hij; cbn [writeAt nth];
    auto; try lia.
Qed.

Lemma pointAt_writeVector_same (l : list R) (i : nat) (n : Vector3) :
  (i * 3 + 2 < List.length l)%nat -> pointAt (writeVector l i n) i = n.
Proof.
  intros Hi. unfold pointAt, nthR, writeVector. destruct n as [x y z].
  cbn [vx vy vz]. f_equal.
  - rewrite !nth_writeAt_other by lia. apply nth_writeAt_same. lia.
  - rewrite nth_writeAt_other by lia. apply nth_writeAt_same.
    rewrite length_writeAt. lia.
  - apply nth_writeAt_same. rewrite !length_writeAt. lia.
Qed.

Lemma pointAt_writeVector_other (l : list R) (i j : nat) (n : Vector3) :
  i <> j -> pointAt (writeVector l j n) i = pointAt l i.
Proof.
  intros Hij. unfold pointAt, nthR, writeVector.
  now rewrite !nth_writeAt_other by lia.
Qed.

Lemma pointAt_flatten (pts : list Vector3) :
  forall i : nat,
    (i < List.length pts)%nat -> pointAt (flatten pts) i = nth i pts Vec.zero.
Proof.
  induction pts as [| p pts IH]; intros i Hi; [cbn in Hi; lia |].
  destruct i as [| i].
  - destruct p. reflexivity.
  - cbn [List.length] in Hi. cbn [nth]. rewrite <- (IH i) by lia.
    unfold pointAt, nthR, flatten. cbn [flat_map app].
    replace (S i * 3)%nat with (S (S (S (i * 3)))) by lia.
    reflexivity.
Qed.

(** The array of normals has as many entries as the array of positions,
    whatever that array is. *)
Lemma length_normals (positions : list R) :
  List.length (computePointCloudNormals positions) = List.length positions.
Proof.
  unfold computePointCloudNormals.
  apply (forLoop_invariant
           (fun normals => List.length normals = List.length positions)).
  - intros k normals _ Hlen.
    destruct (normalStep_writes positions
                (INR (List.length positions) / 3) k normals) as [n ->].
    now rewrite length_writeVector.
  - apply repeat_length.
Qed.

(** What [normalStep] writes for point [i] does not depend on the normals
    written before; it does not point towards the origin and has length one
    or zero. *)
Lemma normalStep_outward (positions : list R) (count : R) (i : nat) :
  exists n : Vector3,
    (forall normals,
       normalStep positions count i normals = writeVector normals i n) /\
    0 <= Vec.dot n (pointAt positions i) /\
    unitOrZero n.
Proof.
  unfold normalStep.
  set (p1 := pointAt positions i).
  assert (Hfall : exists n : Vector3,
            (forall normals,
               writeVector normals i (Vec.normalize p1)
               = writeVector normals i n) /\
            0 <= Vec.dot n p1 /\ unitOrZero n).
  { exists (Vec.normalize p1). split; [reflexivity |].
    split; [apply normalize_dot_nonneg | apply normalize_unitOrZero]. }
  destruct (forLoop _ _ _ _ _ _) as [| n1 [| n2 rest]]; try exact Hfall.
  set (c := Vec.normalize _).
  destruct (Vec.dot c p1 <? 0) eqn:E.
  - exists (Vec.negate c). split; [reflexivity |]. split.
    + apply Rltb_true in E. unfold Vec.dot, Vec.negate in *.
      cbn [vx vy vz]. lra.
    + apply negate_unitOrZero, normalize_unitOrZero.
  - exists c. split; [reflexivity |]. split.
    + now apply Rltb_false in E.
    + apply normalize_unitOrZero.
Qed.

Lemma normals_fold_outward (positions : list R) (count : R)
    (init : list R) (m : nat) :
  (m * 3 <= List.length init)%nat ->
  let result :=
    fold_left (fun normals i => normalStep positions count i normals)
      (seq 0 m) init in
  List.length result = List.length init /\
  forall i, (i < m)%nat ->
    0 <= Vec.dot (pointAt result i) (pointAt positions i) /\
    unitOrZero (pointAt result i).
Proof.
  induction m as [| m IH]; intros Hlen result.
  - split; [reflexivity |]. intros i Hi. lia.
  - subst result. rewrite seq_S, fold_left_app. cbn [fold_left Nat.add].
    destruct IH as [Hl Hprev]; [lia |].
    destruct (normalStep_outward positions count m) as (n & Hw & Hdot & Hu).
    rewrite Hw. split; [now rewrite length_writeVector |].
    intros i Hi. destruct (Nat.eq_dec i m) as [-> | Hne].
    + rewrite pointAt_writeVector_same by lia. now split.
    + rewrite pointAt_writeVector_other by exact Hne. apply Hprev. lia.
Qed.

(** X8.  For a cloud given three coordinates per point, the normal written
    for each point has length one or zero and does not point towards the
    origin: its scalar product with the point's position is not
    negative. *)
Theorem normals_outward (pts : list Vector3) (i : nat) :
  (i < List.length pts)%nat ->
  let normal := pointAt (computePointCloudNormals (flatten pts)) i in
  0 <= Vec.dot normal (nth i pts Vec.zero) /\ unitOrZero normal.
Proof.
  intros Hi normal. subst normal. rewrite normals_of_cloud.
  destruct (normals_fold_outward (flatten pts) (INR (List.length pts))
              (repeat 0 (List.length (flatten pts))) (List.length pts))
    as [_ Hall].
  { rewrite repeat_length, length_flatten. lia. }
  rewrite <- (pointAt_flatten pts i Hi). now apply Hall.
Qed.

Lemma normals_outward_witness :
  (0 < List.length cloud3)%nat /\
  0 <= Vec.dot (pointAt (computePointCloudNormals (flatten cloud3)) 0)
         (nth 0 cloud3 Vec.zero) /\
  unitOrZero (pointAt (computePointCloudNormals (flatten cloud3)) 0).
Proof.
  split; [cbn; lia |]. apply (normals_outward cloud3 0). cbn. lia.
Defined.

(** ** Point-cloud normals: the two nearest neighbours *)

Lemma insertNeighbor_perm (a : Neighbor) (l : list Neighbor) :
  Permutation (insertNeighbor a l) (a :: l).
Proof.
  induction l as [| b l IH]; cbn [insertNeighbor]; [reflexivity |].
  destruct (dist b <? dist a); [| reflexivity].
  rewrite IH. apply perm_swap.
Qed.

Lemma sortNeighbors_perm (l : list Neighbor) :
  Permutation (sortNeighbors l) l.
Proof.
  unfold sortNeighbors.
  induction l as [| a l IH]; cbn [fold_right]; [constructor |].
  rewrite insertNeighbor_perm. now constructor.
Qed.

Lemma insertNeighbor_sorted (a : Neighbor) (l : list Neighbor) :
  StronglySorted (fun x y => dist x <= dist y) l ->
  StronglySorted (fun x y => dist x <= dist y) (insertNeighbor a l).
Proof.
  induction l as [| b l IH]; intros Hs; cbn [insertNeighbor].
  - constructor; constructor.
  - inversion Hs as [| ? ? Hs' Hall]; subst.
    rewrite Forall_forall in Hall.
    destruct (dist b <? dist a) eqn:E.
    + apply Rltb_true in E. constructor; [now apply IH |].
      apply Forall_forall. intros e He.
      apply (Permutation_in _ (insertNeighbor_perm a l)) in He.
      destruct He as [<- | He]; [lra | now apply Hall].
    + apply Rltb_false in E. constructor; [exact Hs |].
      constructor; [exact E |].
      apply Forall_forall. intros e He. specialize (Hall e He). lra.
Qed.

Lemma sortNeighbors_sorted (l : list Neighbor) :
  StronglySorted (fun x y => dist x <= dist y) (sortNeighbors l).
Proof.
  unfold sortNeighbors.
  induction l as [| a l IH]; cbn [fold_right]; [constructor |].
  now apply insertNeighbor_sorted.
Qed.

Lemma sorted_last (l : list Neighbor) (d : Neighbor) :
  StronglySorted (fun x y => dist x <= dist y) l ->
  forall e, In e l -> dist e <= dist (last l d).
Proof.
  induction 1 as [| a l Hs IH Hall]; intros e He; [contradiction |].
  rewrite Forall_forall in Hall.
  destruct l as [| b l].
  - destruct He as [<- | []]. cbn. lra.
  - change (last (a :: b :: l) d) with (last (b :: l) d).
    destruct He as [<- | He]; [| now apply IH].
    assert (Hin : In (last (b :: l) d) (b :: l)).
    { destruct (exists_last (l := b :: l)) as (l' & x & Hx);
        [discriminate |].
      rewrite Hx, last_last. apply in_or_app. right. now left. }
    now apply Hall.
Qed.

Lemma two_distinct_members (l : list nat) (a b : nat) :
  In a l -> In b l -> a <> b -> (2 <= List.length l)%nat.
Proof.
  destruct l as [| x [| y l]]; cbn; intros Ha Hb Hab; lia.
Qed.

Section NeighbourSearch.

Variable positions : list R.
Variable k i : nat.
Variable p1 : Vector3.

Let D (j : nat) : R := Vec.distanceToSquared p1 (pointAt positions j).

Hypothesis k_positive : (0 < k)%nat.

Lemma neighborStep_keeps (J : nat) (nb : list Neighbor) :
  nearestSoFar D k i J nb ->
  nearestSoFar D k i (S J) (neighborStep positions k i p1 J nb).
Proof.
  intros (Hsorted & Hall & Hnodup & Hlen & Hseen).
  rewrite Forall_forall in Hall.
  assert (Hfresh : ~ In J (map idx nb)).
  { intros Hin. apply in_map_iff in Hin. destruct Hin as (e & He & Hin).
    destruct (Hall e Hin) as [Hlt _]. lia. }
  unfold neighborStep. destruct (Nat.eqb_spec i J) as [-> | Hne].
  { (* the point itself is skipped *)
    repeat split; auto.
    - apply Forall_forall. intros e He. destruct (Hall e He) as (? & ? & ?).
      repeat split; auto.
    - intros j Hj Hji. apply Hseen; [lia | exact Hji]. }
  fold (D J). set (new := mkNeighbor J (D J)).
  destruct (Nat.ltb_spec (List.length nb) k) as [Hroom | Hfull].
  { (* room left: push and sort *)
    pose proof (sortNeighbors_perm (nb ++ [new])) as Hperm.
    split; [apply sortNeighbors_sorted |]. split.
    { apply Forall_forall. intros e He.
      apply (Permutation_in _ Hperm) in He. apply in_app_or in He.
      destruct He as [He | [<- | []]].
      - destruct (Hall e He) as (? & ? & ?). repeat split; auto.
      - cbn. repeat split; auto. }
    split.
    { apply (Permutation_NoDup (Permutation_map idx (Permutation_sym Hperm))).
      rewrite map_app. cbn [map new idx].
      apply NoDup_app; [exact Hnodup | constructor; [intros [] | constructor]
                        |].
      intros x Hx [<- | []]. contradiction. }
    split.
    { rewrite (Permutation_length Hperm), length_app. cbn. lia. }
    intros j Hj Hji. left.
    apply (Permutation_in _ (Permutation_map idx (Permutation_sym Hperm))).
    rewrite map_app. apply in_or_app.
    destruct (Nat.eq_dec j J) as [-> | HjJ]; [right; now left |].
    destruct (Hseen j ltac:(lia) Hji) as [Hin | [Hk _]]; [now left | lia]. }
  assert (Hk : List.length nb = k) by lia.
  assert (Hnonempty : nb <> []) by (intros ->; cbn in Hk; lia).
  pose proof (app_removelast_last (mkNeighbor 0 0) Hnonempty) as Hsplit.
  set (lst := last nb (mkNeighbor 0 0)) in *.
  set (init := removelast nb) in *.
  assert (Hlst : forall e, In e nb -> dist e <= dist lst).
  { intros e He. now apply sorted_last. }
  assert (Hinit : forall e, In e init -> In e nb).
  { intros e He. rewrite Hsplit. apply in_or_app. now left. }
  assert (Hlen_init : S (List.length init) = k).
  { rewrite <- Hk.
    transitivity (List.length (init ++ [lst]));
      [rewrite length_app; cbn; lia | now rewrite <- Hsplit]. }
  destruct (D J <? dist lst) eqn:E.
  { (* closer than the farthest entry: replace it *)
    apply Rltb_true in E.
    pose proof (sortNeighbors_perm (init ++ [new])) as Hperm.
    assert (Hmem : forall e, In e (sortNeighbors (init ++ [new])) ->
              In e init \/ e = new).
    { intros e He. apply (Permutation_in _ Hperm) in He.
      apply in_app_or in He. destruct He as [He | [<- | []]]; auto. }
    split; [apply sortNeighbors_sorted |]. split.
    { apply Forall_forall. intros e He.
      destruct (Hmem e He) as [Hi | ->].
      - destruct (Hall e (Hinit e Hi)) as (? & ? & ?). repeat split; auto.
      - cbn. repeat split; auto. }
    split.
    { apply (Permutation_NoDup (Permutation_map idx (Permutation_sym Hperm))).
      rewrite map_app. cbn [map new idx].
      rewrite Hsplit, map_app in Hnodup.
      apply NoDup_app; [now apply NoDup_app_remove_r in Hnodup
                        | constructor; [intros [] | constructor] |].
      intros x Hx [<- | []]. apply Hfresh. apply in_map_iff in Hx.
      destruct Hx as (e & He & Hi). apply in_map_iff. exists e.
      split; [exact He | now apply Hinit]. }
    assert (Hlen' : List.length (sortNeighbors (init ++ [new])) = k).
    { rewrite (Permutation_length Hperm), length_app. cbn. lia. }
    split; [lia |].
    intros j Hj Hji.
    destruct (Nat.eq_dec j J) as [-> | HjJ].
    { left.
      apply (Permutation_in _ (Permutation_map idx (Permutation_sym Hperm))).
      rewrite map_app. apply in_or_app. right. now left. }
    assert (Hfar : dist lst <= D j ->
              Forall (fun e => dist e <= D j)
                (sortNeighbors (init ++ [new]))).
    { intros Hd. apply Forall_forall. intros e He.
      destruct (Hmem e He) as [Hi | ->].
      - specialize (Hlst e (Hinit e Hi)). lra.
      - cbn. lra. }
    destruct (Hseen j ltac:(lia) Hji) as [Hin | [_ Hfa]].
    - apply in_map_iff in Hin. destruct Hin as (e & He & Hin).
      rewrite Hsplit in Hin. apply in_app_or in Hin.
      destruct Hin as [Hi | [<- | []]].
      + left.
        apply (Permutation_in _
                 (Permutation_map idx (Permutation_sym Hperm))).
        rewrite map_app. apply in_or_app. left.
        apply in_map_iff. now exists e.
      + right. split; [exact Hlen' |]. apply Hfar.
        assert (Hl : In lst nb).
        { rewrite Hsplit. apply in_or_app. right. now left. }
        destruct (Hall lst Hl) as (_ & _ & Hd). rewrite Hd, He. lra.
    - right. split; [exact Hlen' |]. apply Hfar.
      rewrite Forall_forall in Hfa. apply Hfa.
      rewrite Hsplit. apply in_or_app. right. now left. }
  (* not closer: the list is kept *)
  apply Rltb_false in E.
  split; [exact Hsorted |]. split.
  { apply Forall_forall. intros e He. destruct (Hall e He) as (? & ? & ?).
    repeat split; auto. }
  split; [exact Hnodup |]. split; [exact Hlen |].
  intros j Hj Hji.
  destruct (Nat.eq_dec j J) as [-> | HjJ]; [| apply Hseen; [lia | exact Hji]].
  right. split; [exact Hk |].
  apply Forall_forall. intros e He. specialize (Hlst e He). lra.
Qed.

Lemma neighbourSearch_nearest (n : nat) :
  nearestSoFar D k i n
    (fold_left (fun nb j => neighborStep positions k i p1 j nb) (seq 0 n) []).
Proof.
  induction n as [| n IH].
  - unfold nearestSoFar. cbn. repeat split; try constructor; try lia.
  - rewrite seq_S, fold_left_app. cbn [fold_left Nat.add].
    now apply neighborStep_keeps.
Qed.

End NeighbourSearch.

Lemma normals_fold_value (positions : list R) (count : R) (init : list R)
    (m : nat) :
  (m * 3 <= List.length init)%nat ->
  let result :=
    fold_left (fun normals i => normalStep positions count i normals)
      (seq 0 m) init in
  List.length result = List.length init /\
  forall (i : nat) (v : Vector3),
    (i < m)%nat ->
    (forall normals,
       normalStep positions count i normals = writeVector normals i v) ->
    pointAt result i = v.
Proof.
  induction m as [| m IH]; intros Hlen result.
  - split; [reflexivity |]. intros i v Hi. lia.
  - subst result. rewrite seq_S, fold_left_app. cbn [fold_left Nat.add].
    destruct IH as [Hl Hprev]; [lia |].
    split.
    { destruct (normalStep_writes positions count m
                  (fold_left
                     (fun normals i => normalStep positions count i normals)
                     (seq 0 m) init)) as [n ->].
      now rewrite length_writeVector. }
    intros i v Hi Hv. destruct (Nat.eq_dec i m) as [-> | Hne].
    + rewrite Hv. apply pointAt_writeVector_same. lia.
    + destruct (normalStep_writes positions count m
                  (fold_left
                     (fun normals i => normalStep positions count i normals)
                     (seq 0 m) init)) as [n ->].
      rewrite pointAt_writeVector_other by exact Hne.
      apply Hprev; [lia | exact Hv].
Qed.

(** X9.  In a cloud of at least three points, the normal of point [i] is
    built from its two nearest other points: [j1] is a point nearest to
    [i], [j2] a point nearest to [i] among the remaining ones, and the
    normal is the normalised cross product of the vectors from [i] to [j1]
    and from [i] to [j2], negated when it points towards the origin. *)
Theorem normal_from_two_nearest (pts : list Vector3) (i : nat) :
  (3 <= List.length pts)%nat ->
  (i < List.length pts)%nat ->
  let p := fun j => nth j pts Vec.zero in
  let D := fun j => Vec.distanceToSquared (p i) (p j) in
  exists j1 j2 : nat,
    (j1 < List.length pts)%nat /\ (j2 < List.length pts)%nat /\
    j1 <> i /\ j2 <> i /\ j1 <> j2 /\
    (forall j, (j < List.length pts)%nat -> j <> i -> D j1 <= D j) /\
    (forall j, (j < List.length pts)%nat -> j <> i -> j <> j1 ->
       D j2 <= D j) /\
    let c :=
      Vec.normalize
        (Vec.crossVectors (Vec.subVectors (p j1) (p i))
           (Vec.subVectors (p j2) (p i))) in
    pointAt (computePointCloudNormals (flatten pts)) i
    = if Vec.dot c (p i) <? 0 then Vec.negate c else c.
Proof.
  intros Hthree Hi p D.
  set (n := List.length pts) in *.
  pose proof (neighbourSearch_nearest (flatten pts) 6 i
                (pointAt (flatten pts) i) ltac:(lia) n)
    as (Hsorted & Hall & Hnodup & Hlen & Hseen).
  pose proof (neighbors_of_cloud pts 6 i (pointAt (flatten pts) i)) as Hloop.
  fold n in Hloop.
  set (nb := fold_left
               (fun nb j =>
                  neighborStep (flatten pts) 6 i (pointAt (flatten pts) i)
                    j nb)
               (seq 0 n) []) in *.
  rewrite Forall_forall in Hall.
  assert (HD : forall j, (j < n)%nat ->
            Vec.distanceToSquared (pointAt (flatten pts) i)
              (pointAt (flatten pts) j) = D j).
  { intros j Hj. unfold D, p. now rewrite !pointAt_flatten. }
  (* at least two neighbours *)
  assert (Htwo : (2 <= List.length nb)%nat).
  { assert (Hab : exists a b, (a < n)%nat /\ (b < n)%nat /\ a <> i /\
                              b <> i /\ a <> b).
    { destruct i as [| [| i']].
      - exists 1%nat, 2%nat. repeat split; lia.
      - exists 0%nat, 2%nat. repeat split; lia.
      - exists 0%nat, 1%nat. repeat split; lia. }
    destruct Hab as (a & b & Ha & Hb & Hai & Hbi & Hab).
    destruct (Hseen a Ha Hai) as [Hina | [Hk _]]; [| lia].
    destruct (Hseen b Hb Hbi) as [Hinb | [Hk _]]; [| lia].
    rewrite <- (length_map idx).
    exact (two_distinct_members _ a b Hina Hinb Hab). }
  destruct nb as [| n1 [| n2 rest]] eqn:Enb; [cbn in Htwo; lia
                                              | cbn in Htwo; lia |].
  inversion Hsorted as [| ? ? Hsorted2 Hle1]; subst.
  inversion Hsorted2 as [| ? ? _ Hle2]; subst.
  rewrite Forall_forall in Hle1, Hle2.
  destruct (Hall n1 ltac:(now left)) as (Hn1 & Hn1i & Hd1).
  destruct (Hall n2 ltac:(right; now left)) as (Hn2 & Hn2i & Hd2).
  rewrite HD in Hd1 by exact Hn1. rewrite HD in Hd2 by exact Hn2.
  cbn [map] in Hnodup. inversion Hnodup as [| ? ? Hnot _]; subst.
  exists (idx n1), (idx n2).
  split; [exact Hn1 |]. split; [exact Hn2 |]. split; [exact Hn1i |].
  split; [exact Hn2i |].
  split; [intros Heq; apply Hnot; left; now symmetry |].
  split.
  { intros j Hj Hji. rewrite <- Hd1.
    destruct (Hseen j Hj Hji) as [Hin | [_ Hfar]].
    - apply in_map_iff in Hin. destruct Hin as (e & He & Hin).
      destruct (Hall e Hin) as (_ & _ & Hde).
      rewrite He, HD in Hde by exact Hj. rewrite <- Hde.
      destruct Hin as [<- | Hin]; [lra | now apply Hle1].
    - rewrite Forall_forall, HD in Hfar by exact Hj.
      apply Hfar. now left. }
  split.
  { intros j Hj Hji Hj1. rewrite <- Hd2.
    destruct (Hseen j Hj Hji) as [Hin | [_ Hfar]].
    - apply in_map_iff in Hin. destruct Hin as (e & He & Hin).
      destruct (Hall e Hin) as (_ & _ & Hde).
      rewrite He, HD in Hde by exact Hj. rewrite <- Hde.
      destruct Hin as [<- | [<- | Hin]];
        [now contradiction Hj1 | lra | now apply Hle2].
    - rewrite Forall_forall, HD in Hfar by exact Hj.
      apply Hfar. right. now left. }
  intros c. rewrite normals_of_cloud. fold n.
  destruct (normals_fold_value (flatten pts) (INR n)
              (repeat 0 (List.length (flatten pts))) n) as [_ Hval].
  { rewrite repeat_length, length_flatten. fold n. lia. }
  apply Hval; [exact Hi |].
  intros normals. unfold normalStep. rewrite Hloop.
  cbv zeta. rewrite !pointAt_flatten by assumption.
  reflexivity.
Qed.

Lemma normal_from_two_nearest_witness :
  exists j1 j2 : nat,
    j1 <> 0%nat /\ j2 <> 0%nat /\ j1 <> j2 /\
    pointAt (computePointCloudNormals (flatten cloud3)) 0
    = let c :=
        Vec.normalize
          (Vec.crossVectors
             (Vec.subVectors (nth j1 cloud3 Vec.zero) (nth 0 cloud3 Vec.zero))
             (Vec.subVectors (nth j2 cloud3 Vec.zero)
                (nth 0 cloud3 Vec.zero))) in
      if Vec.dot c (nth 0 cloud3 Vec.zero) <? 0 then Vec.negate c else c.
Proof.
  destruct (normal_from_two_nearest cloud3 0)
    as (j1 & j2 & _ & _ & H1 & H2 & H12 & _ & _ & Hn);
    [cbn; lia | cbn; lia |].
  exists j1, j2. now repeat split.
Defined.

(** ** The regenerated InstanceSet *)

Lemma acceptedAt_inv {Matrix4 : Type} `{WorldTransform Matrix4}
    (config : MaskConfig) (customMesh : option BufferGeometry)
    (customMeshMatrix : Matrix4) (i : nat) (a : InstanceData) :
  acceptedAt config customMesh customMeshMatrix i = Some a ->
  let uv := sampleUV (distribution config) (density config) i in
  let rs := resolveSurface config customMesh customMeshMatrix
              (fst uv) (snd uv) in
  let s := scaleBase config + random (INR i * 0.1) * scaleVar config in
  checkZone (fst uv) (snd uv) (zone config) = true /\
  eyeCutout (fst uv) (snd uv) (zone config) = false /\
  a = mkInstance (fst rs) (snd rs) s (deriveColor config (fst rs) (snd rs))
        (compose (fst rs) (FromUnitVectors upVec (snd rs)) (mkVector3 s s s)).
Proof.
  unfold acceptedAt. destruct (sampleUV _ _ _) as [u v]. cbn [fst snd].
  destruct (checkZone u v (zone config)); [| discriminate].
  destruct (eyeCutout u v (zone config)); [discriminate |].
  destruct (resolveSurface _ _ _ _ _) as [pFinal normal]. cbn [fst snd negb].
  intros E. injection E as <-. now repeat split.
Qed.

Lemma length_flat_map_bound {A B : Type} (f : A -> list B) (c : nat)
    (l : list A) :
  (forall x, (List.length (f x) <= c)%nat) ->
  (List.length (flat_map f l) <= List.length l * c)%nat.
Proof.
  intros Hf. induction l as [| x l IH]; [cbn; lia |].
  cbn [flat_map List.length]. rewrite length_app.
  specialize (Hf x). lia.
Qed.

(** X10.  The realized count is the number of instances in
    [userData.instances] and never exceeds the density, or twice the
    density with symmetry: [config.density * 2] slots always suffice, and a
    density of 0 leaves an empty set. *)
Theorem regeneration_count_bound {Matrix4 : Type} `{WorldTransform Matrix4}
    (config : MaskConfig) (customMesh : option BufferGeometry)
    (customMeshMatrix : Matrix4) (s : Store) (n : nat)
    (insts : list InstanceData) :
  instanceSet (useLayoutEffect config customMesh customMeshMatrix s)
  = Some (n, insts) ->
  n = List.length insts /\
  (n <= density config * (if symmetry config then 2 else 1))%nat /\
  (n <= density config * 2)%nat.
Proof.
  intros Hset.
  destruct (meshRef s) as [mesh |] eqn:E.
  2:{ unfold useLayoutEffect, instanceSet in Hset. rewrite E in Hset.
      rewrite E in Hset. discriminate. }
  destruct (useLayoutEffect_generated config customMesh customMeshMatrix
              s mesh E) as [Hgen _].
  rewrite Hgen in Hset. injection Hset as <- <-.
  split; [reflexivity |].
  assert (Hb : (List.length (generated config customMesh customMeshMatrix)
                <= density config * (if symmetry config then 2 else 1))%nat).
  { unfold generated.
    pose proof (length_flat_map_bound
                  (emittedAt config customMesh customMeshMatrix)
                  (if symmetry config then 2 else 1)%nat
                  (seq 0 (density config))) as Hlen.
    rewrite length_seq in Hlen. apply Hlen.
    intros i. unfold emittedAt, emitted.
    destruct (acceptedAt _ _ _ i); destruct (symmetry config); cbn; lia. }
  split; [exact Hb |]. destruct (symmetry config); lia.
Qed.

Lemma regeneration_count_bound_witness :
  exists (n : nat) (insts : list InstanceData),
    instanceSet (useLayoutEffect DEFAULT_CONFIG None tt
                   (mountedStore DEFAULT_CONFIG))
    = Some (n, insts) /\
    n = List.length insts /\
    (n <= density DEFAULT_CONFIG
          * (if symmetry DEFAULT_CONFIG then 2 else 1))%nat /\
    (n <= density DEFAULT_CONFIG * 2)%nat.
Proof.
  destruct (useLayoutEffect_generated DEFAULT_CONFIG None tt
              (mountedStore DEFAULT_CONFIG) _ eq_refl) as [Hset _].
  eexists _, _. split; [exact Hset |].
  exact (regeneration_count_bound DEFAULT_CONFIG None tt
           (mountedStore DEFAULT_CONFIG) _ _ Hset).
Defined.

(** X11.  Every instance of the regenerated set has a scale between
    [scaleBase] and [scaleBase + scaleVar], when [scaleVar] is not
    negative. *)
Theorem instance_scale_bounds {Matrix4 : Type} `{WorldTransform Matrix4}
    (config : MaskConfig) (customMesh : option BufferGeometry)
    (customMeshMatrix : Matrix4) (s : Store) (n : nat)
    (insts : list InstanceData) (a : InstanceData) :
  0 <= scaleVar config ->
  instanceSet (useLayoutEffect config customMesh customMeshMatrix s)
  = Some (n, insts) ->
  In a insts ->
  scaleBase config <= inst_scale a <= scaleBase config + scaleVar config.
Proof.
  intros Hvar Hset Hin.
  rewrite (instanceSet_after_regeneration _ _ _ _ _ _ Hset) in Hin.
  destruct (generated_inv config customMesh customMeshMatrix a Hin)
    as (i & b & _ & Hb & Ha).
  destruct (acceptedAt_inv config customMesh customMeshMatrix i b Hb)
    as (_ & _ & ->).
  pose proof (random_unit (INR i * 0.1)) as Hr.
  destruct Ha as [-> | ->]; cbn [mirrored inst_scale]; nra.
Qed.

Lemma instance_scale_bounds_witness :
  0 <= scaleVar DEFAULT_CONFIG /\
  exists (n : nat) (insts : list InstanceData) (a : InstanceData),
    instanceSet (useLayoutEffect DEFAULT_CONFIG None tt
                   (mountedStore DEFAULT_CONFIG))
    = Some (n, insts) /\
    In a insts /\
    scaleBase DEFAULT_CONFIG <= inst_scale a
    <= scaleBase DEFAULT_CONFIG + scaleVar DEFAULT_CONFIG.
Proof.
  assert (Hvar : 0 <= scaleVar DEFAULT_CONFIG) by (cbn; lra).
  split; [exact Hvar |].
  destruct default_first_generated as (a & Hin & _).
  destruct (useLayoutEffect_generated DEFAULT_CONFIG None tt
              (mountedStore DEFAULT_CONFIG) _ eq_refl) as [Hset _].
  eexists _, _, a. split; [exact Hset |]. split; [exact Hin |].
  exact (instance_scale_bounds DEFAULT_CONFIG None tt
           (mountedStore DEFAULT_CONFIG) _ _ a Hvar Hset Hin).
Defined.

(** X12.  Every instance of the regenerated set comes from an index below
    the density whose sample lies inside the zone and, for the full and
    domino zones, at a distance of at least 0.12 from both eye centres
    [(-0.35, 0.35)] and [(0.35, 0.35)]; the instance sits at the resolved
    surface point of that sample or, with symmetry, at its mirror image. *)
Theorem instance_provenance {Matrix4 : Type} `{WorldTransform Matrix4}
    (config : MaskConfig) (customMesh : option BufferGeometry)
    (customMeshMatrix : Matrix4) (s : Store) (n : nat)
    (insts : list InstanceData) (a : InstanceData) :
  instanceSet (useLayoutEffect config customMesh customMeshMatrix s)
  = Some (n, insts) ->
  In a insts ->
  exists i : nat,
    (i < density config)%nat /\
    let u := fst (sampleUV (distribution config) (density config) i) in
    let v := snd (sampleUV (distribution config) (density config) i) in
    let p := fst (resolveSurface config customMesh customMeshMatrix u v) in
    checkZone u v (zone config) = true /\
    (zone config = Full \/ zone config = Domino ->
     0.12 * 0.12 <= (u + 0.35) ^ 2 + (v - 0.35) ^ 2 /\
     0.12 * 0.12 <= (u - 0.35) ^ 2 + (v - 0.35) ^ 2) /\
    (inst_position a = p \/
     symmetry config = true /\
     inst_position a = mkVector3 (- vx p) (vy p) (vz p)).
Proof.
  intros Hset Hin.
  rewrite (instanceSet_after_regeneration _ _ _ _ _ _ Hset) in Hin.
  assert (Hsym : forall b, In a (emitted config b) ->
            a = b \/ symmetry config = true /\ a = mirrored b).
  { intros b. unfold emitted. destruct (symmetry config); cbn [In].
    - intros [<- | [<- | []]]; auto.
    - intros [<- | []]; auto. }
  unfold generated in Hin. apply in_flat_map in Hin.
  destruct Hin as (i & Hi & Ha). apply in_seq in Hi.
  unfold emittedAt in Ha.
  destruct (acceptedAt config customMesh customMeshMatrix i) as [b |] eqn:Hb;
    [| contradiction].
  cbn [optionList flat_map] in Ha. rewrite app_nil_r in Ha.
  apply Hsym in Ha.
  destruct (acceptedAt_inv config customMesh customMeshMatrix i b Hb)
    as (Hzone & Hcut & Hbeq).
  exists i. split; [lia |]. cbn zeta. split; [exact Hzone |]. split.
  - intros Hz. unfold eyeCutout in Hcut.
    assert (Hor : (sqrt ((fst (sampleUV (distribution config)
                                 (density config) i) - -0.35) ^ 2
                         + (snd (sampleUV (distribution config)
                                   (density config) i) - 0.35) ^ 2)
                   <? 0.12)
                  || (sqrt ((fst (sampleUV (distribution config)
                                    (density config) i) - 0.35) ^ 2
                            + (snd (sampleUV (distribution config)
                                      (density config) i) - 0.35) ^ 2)
                      <? 0.12) = false).
    { destruct Hz as [Hz | Hz]; rewrite Hz in Hcut; exact Hcut. }
    rewrite !sqrt_lt_square in Hor by (try apply sum_squares_nonneg; lra).
    apply orb_false_elim in Hor. destruct Hor as [Hl Hr].
    apply Rltb_false in Hl. apply Rltb_false in Hr. split; nra.
  - destruct Ha as [-> | [Hs ->]]; rewrite Hbeq; cbn [mirrored inst_position];
      auto.
Qed.

Lemma instance_provenance_witness :
  exists (n : nat) (insts : list InstanceData) (a : InstanceData),
    instanceSet (useLayoutEffect DEFAULT_CONFIG None tt
                   (mountedStore DEFAULT_CONFIG))
    = Some (n, insts) /\
    In a insts /\
    exists i : nat,
      (i < density DEFAULT_CONFIG)%nat /\
      checkZone
        (fst (sampleUV (distribution DEFAULT_CONFIG)
                (density DEFAULT_CONFIG) i))
        (snd (sampleUV (distribution DEFAULT_CONFIG)
                (density DEFAULT_CONFIG) i))
        (zone DEFAULT_CONFIG) = true.
Proof.
  destruct default_first_generated as (a & Hin & _).
  destruct (useLayoutEffect_generated DEFAULT_CONFIG None tt
              (mountedStore DEFAULT_CONFIG) _ eq_refl) as [Hset _].
  eexists _, _, a. split; [exact Hset |]. split; [exact Hin |].
  destruct (instance_provenance DEFAULT_CONFIG None tt
              (mountedStore DEFAULT_CONFIG) _ _ a Hset Hin)
    as (i & Hi & Hz & _).
  exists i. split; [exact Hi | exact Hz].
Defined.

Lemma buffers_after_push (m : InstancedMesh) (a : InstanceData) :
  instanceMatrix (pushInstance m a) = instanceMatrix m /\
  instanceColor (pushInstance m a) = instanceColor m.
Proof.
  unfold pushInstance. destruct (userData_instances m); now split.
Qed.

Section Buffers.

Context {Matrix4 : Type} `{WorldTransform Matrix4}.
Variable config : MaskConfig.
Variable customMesh : option BufferGeometry.
Variable customMeshMatrix : Matrix4.

(** The buffers after one iteration: the slots from [idx] on show what the
    iteration appended, every other slot is as before. *)
Lemma placeStep_buffers (i : nat) (st : GenState) (k : nat) :
  let st' := placeStep config customMesh customMeshMatrix i st in
  match nth_error (emittedAt config customMesh customMeshMatrix i)
          (k - g_idx st) with
  | Some a =>
      (g_idx st <= k)%nat ->
      slotShows (g_mesh st') k a /\ inst_matrix a = instanceMatrix (g_mesh st') k
  | None => True
  end /\
  ((k < g_idx st)%nat \/
   (g_idx st
    + List.length (emittedAt config customMesh customMeshMatrix i) <= k)%nat ->
   instanceMatrix (g_mesh st') k = instanceMatrix (g_mesh st) k /\
   instanceColor (g_mesh st') k = instanceColor (g_mesh st) k).
Proof.
  unfold placeStep, emittedAt, acceptedAt.
  destruct (sampleUV _ _ _) as [u v].
  destruct (negb (checkZone u v (zone config))).
  { cbn. destruct (k - g_idx st)%nat; cbn; auto. }
  destruct (eyeCutout u v (zone config)).
  { cbn. destruct (k - g_idx st)%nat; cbn; auto. }
  destruct (resolveSurface _ _ _ _ _) as [pFinal normal].
  unfold emitted, mirrored, slotShows.
  destruct (symmetry config);
    cbn [optionList flat_map app g_mesh g_idx inst_position inst_normal
         inst_scale inst_color inst_matrix updateMatrix setScale
         setRotationFromQuaternion setPosition matrix position quaternion
         scale List.length].
  - rewrite !(proj1 (buffers_after_push _ _)),
            !(proj2 (buffers_after_push _ _)).
    cbn [setColorAt setMatrixAt instanceMatrix instanceColor].
    rewrite !(proj1 (buffers_after_push _ _)),
            !(proj2 (buffers_after_push _ _)).
    cbn [setColorAt setMatrixAt instanceMatrix instanceColor].
    replace (vx pFinal * -1) with (- vx pFinal) by ring.
    replace (vx normal * -1) with (- vx normal) by ring.
    split.
    + destruct (k - g_idx st)%nat as [| [| j]] eqn:Hk; cbn [nth_error].
      * intros Hle. assert (k = g_idx st) by lia. subst k.
        replace (g_idx st =? S (g_idx st))%nat with false
          by (symmetry; apply Nat.eqb_neq; lia).
        rewrite Nat.eqb_refl. now repeat split.
      * intros Hle. assert (k = S (g_idx st)) by lia. subst k.
        rewrite Nat.eqb_refl. now repeat split.
      * destruct j; exact I.
    + intros Hk.
      replace (k =? S (g_idx st))%nat with false
        by (symmetry; apply Nat.eqb_neq; lia).
      replace (k =? g_idx st)%nat with false
        by (symmetry; apply Nat.eqb_neq; lia).
      now split.
  - rewrite !(proj1 (buffers_after_push _ _)),
            !(proj2 (buffers_after_push _ _)).
    cbn [setColorAt setMatrixAt instanceMatrix instanceColor].
    split.
    + destruct (k - g_idx st)%nat as [| j] eqn:Hk; cbn [nth_error].
      * intros Hle. assert (k = g_idx st) by lia. subst k.
        rewrite Nat.eqb_refl. now repeat split.
      * destruct j; exact I.
    + intros Hk.
      replace (k =? g_idx st)%nat with false
        by (symmetry; apply Nat.eqb_neq; lia).
      now split.
Qed.

(** The loop invariant on the buffers: slot [k] shows the [k]-th instance
    appended so far, and the slots from [idx] on are those of the mesh the
    loop started from. *)
Lemma placeLoop_buffers (mesh0 : InstancedMesh) (indices : list nat) :
  forall (st : GenState) (acc : list InstanceData),
    holds st acc ->
    (forall k a, nth_error acc k = Some a ->
       slotShows (g_mesh st) k a /\
       inst_matrix a = instanceMatrix (g_mesh st) k) ->
    (forall k, (List.length acc <= k)%nat ->
       instanceMatrix (g_mesh st) k = instanceMatrix mesh0 k /\
       instanceColor (g_mesh st) k = instanceColor mesh0 k) ->
    let st' :=
      fold_left (fun s k => placeStep config customMesh customMeshMatrix k s)
        indices st in
    let acc' :=
      acc ++ flat_map (emittedAt config customMesh customMeshMatrix) indices
    in
    (forall k a, nth_error acc' k = Some a ->
       slotShows (g_mesh st') k a /\
       inst_matrix a = instanceMatrix (g_mesh st') k) /\
    (forall k, (List.length acc' <= k)%nat ->
       instanceMatrix (g_mesh st') k = instanceMatrix mesh0 k /\
       instanceColor (g_mesh st') k = instanceColor mesh0 k).
Proof.
  induction indices as [| i indices IH]; intros st acc Hst Hshown Hrest.
  - cbn. rewrite app_nil_r. now split.
  - cbn [fold_left flat_map]. rewrite app_assoc.
    pose proof (placeStep_emits config customMesh customMeshMatrix i st acc
                  Hst) as Hst'.
    destruct Hst as [Hacc Hidx].
    apply IH; [exact Hst' | |].
    + intros k a Hk.
      destruct (placeStep_buffers i st k) as [Hnew Hold].
      destruct (Nat.lt_ge_cases k (List.length acc)) as [Hlt | Hge].
      * rewrite nth_error_app1 in Hk by exact Hlt.
        destruct (Hshown k a Hk) as [[Hm Hc] Hi].
        destruct Hold as [Hm' Hc']; [left; lia |].
        unfold slotShows. rewrite Hm', Hc'. now repeat split.
      * rewrite nth_error_app2 in Hk by exact Hge.
        rewrite Hidx in Hnew. rewrite Hk in Hnew. apply Hnew. exact Hge.
    + intros k Hk. rewrite length_app in Hk.
      destruct (placeStep_buffers i st k) as [_ Hold].
      destruct Hold as [Hm' Hc']; [right; lia |].
      rewrite Hm', Hc'. apply Hrest. lia.
Qed.

End Buffers.

(** X13.  After a regeneration the buffers of the mesh agree with
    [userData.instances]: slot [k] holds the matrix composed from the
    position, the rotation from [upVec] to the normal and the uniform scale
    of the [k]-th instance, which is also that instance's stored default
    pose, and it holds that instance's colour; the slots from [count] on
    are left as they were. *)
Theorem regeneration_fills_buffers {Matrix4 : Type} `{WorldTransform Matrix4}
    (config : MaskConfig) (customMesh : option BufferGeometry)
    (customMeshMatrix : Matrix4) (s : Store) (mesh0 : InstancedMesh) :
  meshRef s = Some mesh0 ->
  exists (mesh : InstancedMesh) (insts : list InstanceData),
    meshRef (useLayoutEffect config customMesh customMeshMatrix s)
    = Some mesh /\
    userData_instances mesh = Some insts /\
    count mesh = List.length insts /\
    (forall k a, nth_error insts k = Some a ->
       slotShows mesh k a /\ inst_matrix a = instanceMatrix mesh k) /\
    (forall k, (count mesh <= k)%nat ->
       instanceMatrix mesh k = instanceMatrix mesh0 k /\
       instanceColor mesh k = instanceColor mesh0 k).
Proof.
  intros Hmesh. unfold useLayoutEffect. rewrite Hmesh. rewrite forLoop_seq.
  set (st0 := mkGenState 0 (tempObj s) (tempColor s) (setInstances mesh0 [])).
  assert (Hinv : holds st0 []) by (split; reflexivity).
  pose proof (placeLoop_emits config customMesh customMeshMatrix
                (seq 0 (density config)) st0 [] Hinv) as [Hacc Hidx].
  destruct (placeLoop_buffers config customMesh customMeshMatrix mesh0
              (seq 0 (density config)) st0 [] Hinv) as [Hshown Hrest].
  { intros k a Hk. destruct k; discriminate. }
  { intros k _. now split. }
  cbn [app] in Hacc, Hidx, Hshown, Hrest.
  eexists _, _. cbn [meshRef]. split; [reflexivity |].
  cbn [setCount userData_instances count instanceMatrix instanceColor].
  split; [exact Hacc |]. split; [exact Hidx |].
  split; [exact Hshown |].
  intros k Hk. apply Hrest. rewrite <- Hidx. exact Hk.
Qed.

Lemma regeneration_fills_buffers_witness :
  exists (mesh : InstancedMesh) (insts : list InstanceData),
    meshRef (useLayoutEffect DEFAULT_CONFIG None tt usedStore) = Some mesh /\
    userData_instances mesh = Some insts /\
    count mesh = List.length insts.
Proof.
  destruct (regeneration_fills_buffers DEFAULT_CONFIG None tt usedStore _
              eq_refl) as (mesh & insts & Hm & Hi & Hc & _).
  exists mesh, insts. now repeat split.
Defined.

Lemma unitOrZero_components (n : Vector3) :
  unitOrZero n ->
  -1 <= vx n <= 1 /\ -1 <= vy n <= 1 /\ -1 <= vz n <= 1.
Proof.
  intros Hn. pose proof (length_sqr n) as Hsq.
  assert (Hle : vx n * vx n + vy n * vy n + vz n * vz n <= 1).
  { destruct Hn as [Hn | Hn]; rewrite Hn in Hsq; lra. }
  repeat split; nra.
Qed.

Lemma mirror_unitOrZero (n : Vector3) :
  unitOrZero n -> unitOrZero (mkVector3 (- vx n) (vy n) (vz n)).
Proof.
  unfold unitOrZero, Vec.length. cbn [vx vy vz].
  now replace (- vx n * - vx n) with (vx n * vx n) by ring.
Qed.

Lemma snapToMesh_norm_unitOrZero {Matrix4 : Type} `{WorldTransform Matrix4}
    (target : Vector3) (geometry : BufferGeometry) (matrixWorld : Matrix4) :
  unitOrZero (norm (snapToMesh target geometry matrixWorld)).
Proof.
  unfold snapToMesh. destruct (forLoop _ _ _ _ _ _) as [d bestIndex].
  destruct (negb (bestIndex =? -1)%Z); cbn [norm].
  - destruct (attr_normal geometry); apply normalize_unitOrZero.
  - apply normalize_unitOrZero.
Qed.

Lemma resolveSurface_normal {Matrix4 : Type} `{WorldTransform Matrix4}
    (config : MaskConfig) (customMesh : option BufferGeometry)
    (customMeshMatrix : Matrix4) (u v : R) :
  unitOrZero (snd (resolveSurface config customMesh customMeshMatrix u v)).
Proof.
  unfold resolveSurface. destruct customMesh as [geometry |]; cbn [snd].
  - apply snapToMesh_norm_unitOrZero.
  - destruct ((vz (getFacePoint u v (headWidth config)) >? 0.8)
              && (Rabs (vx (getFacePoint u v (headWidth config))) <? 0.2));
      cbn [snd].
    + left. unfold Vec.length. cbn [vx vy vz].
      replace (0 * 0 + 0 * 0 + 1 * 1) with 1 by ring. apply sqrt_1.
    + apply normalize_unitOrZero.
Qed.

(** X14.  Every instance of the regenerated set carries a normal of length
    one (of length zero only where the surface gave a zero vector to
    normalise), and in the colour mode [normal] its colour is an RGB triple
    with every channel between 0 and 1. *)
Theorem instance_normal_unit {Matrix4 : Type} `{WorldTransform Matrix4}
    (config : MaskConfig) (customMesh : option BufferGeometry)
    (customMeshMatrix : Matrix4) (s : Store) (n : nat)
    (insts : list InstanceData) (a : InstanceData) :
  instanceSet (useLayoutEffect config customMesh customMeshMatrix s)
  = Some (n, insts) ->
  In a insts ->
  unitOrZero (inst_normal a) /\
  (colorMode config = Normal ->
   exists r g b : R,
     inst_color a = ColorRGB r g b /\
     0 <= r <= 1 /\ 0 <= g <= 1 /\ 0 <= b <= 1).
Proof.
  intros Hset Hin.
  rewrite (instanceSet_after_regeneration _ _ _ _ _ _ Hset) in Hin.
  destruct (generated_inv config customMesh customMeshMatrix a Hin)
    as (i & b & _ & Hb & Ha).
  destruct (acceptedAt_inv config customMesh customMeshMatrix i b Hb)
    as (_ & _ & Hbeq).
  pose proof (resolveSurface_normal config customMesh customMeshMatrix
                (fst (sampleUV (distribution config) (density config) i))
                (snd (sampleUV (distribution config) (density config) i)))
    as Hunit.
  pose proof (unitOrZero_components _ Hunit) as (Hx & Hy & Hz).
  assert (Hcol : colorMode config = Normal ->
            exists r g c : R,
              inst_color b = ColorRGB r g c /\
              0 <= r <= 1 /\ 0 <= g <= 1 /\ 0 <= c <= 1).
  { intros Hmode. rewrite Hbeq. cbn [inst_color]. unfold deriveColor.
    rewrite Hmode. eexists _, _, _. split; [reflexivity |].
    repeat split; lra. }
  assert (Hnb : unitOrZero (inst_normal b)) by (now rewrite Hbeq).
  destruct Ha as [-> | ->]; [now split |].
  cbn [mirrored inst_normal inst_color]. split; [| exact Hcol].
  now apply mirror_unitOrZero.
Qed.

Lemma instance_normal_unit_witness :
  exists (n : nat) (insts : list InstanceData) (a : InstanceData),
    instanceSet (useLayoutEffect DEFAULT_CONFIG None tt
                   (mountedStore DEFAULT_CONFIG))
    = Some (n, insts) /\
    In a insts /\ unitOrZero (inst_normal a).
Proof.
  destruct default_first_generated as (a & Hin & _).
  destruct (useLayoutEffect_generated DEFAULT_CONFIG None tt
              (mountedStore DEFAULT_CONFIG) _ eq_refl) as [Hset _].
  eexists _, _, a. split; [exact Hset |]. split; [exact Hin |].
  exact (proj1 (instance_normal_unit DEFAULT_CONFIG None tt
                  (mountedStore DEFAULT_CONFIG) _ _ a Hset Hin)).
Defined.

(** ** The frame handler, continued *)

(** What the update loop leaves in the buffers: slot [idx + j] holds the
    matrix composed for anchor [j], the slots outside the table and all
    colours are untouched. *)
Lemma forEachAnchor_effect (L : list Vector3) (insts : list InstanceData) :
  forall (anchors : list Anchor) (idx : nat) (st : Object3D * InstancedMesh),
    (forall j a, nth_error anchors j = Some a ->
       (exists lm, lookupZ L (landmarkIndex a) = Some lm) /\
       (exists inst, nth_error insts (idx + j) = Some inst)) ->
    exists st' : Object3D * InstancedMesh,
      forEachAnchor L insts anchors idx st = Ok st' /\
      userData_instances (snd st') = userData_instances (snd st) /\
      count (snd st') = count (snd st) /\
      instanceColor (snd st') = instanceColor (snd st) /\
      (forall k, (k < idx)%nat \/ (idx + List.length anchors <= k)%nat ->
         instanceMatrix (snd st') k = instanceMatrix (snd st) k) /\
      (forall j a lm inst, nth_error anchors j = Some a ->
         lookupZ L (landmarkIndex a) = Some lm ->
         nth_error insts (idx + j) = Some inst ->
         instanceMatrix (snd st') (idx + j)
         = compose (Vec.addVectors lm (anchorOffset a))
             (FromUnitVectors upVec (inst_normal inst))
             (mkVector3 (inst_scale inst) (inst_scale inst)
                (inst_scale inst))).
Proof.
  induction anchors as [| a anchors IH]; intros idx st Hacc.
  - exists st. cbn [forEachAnchor]. repeat split; auto.
    intros j a lm inst Hj. destruct j; discriminate.
  - destruct (Hacc 0%nat a eq_refl) as [[lm Hlm] [inst Hinst]].
    rewrite Nat.add_0_r in Hinst.
    cbn [forEachAnchor]. unfold updateStep. destruct st as [obj mesh].
    rewrite Hlm, Hinst. cbn [defined bind].
    match goal with
    | |- context [forEachAnchor L insts anchors (S idx) ?st1] =>
        destruct (IH (S idx) st1)
          as (st' & Hrun & Hdata & Hcount & Hcol & Hout & Hin)
    end.
    { intros j b Hj. specialize (Hacc (S j) b Hj).
      now replace (S idx + j)%nat with (idx + S j)%nat by lia. }
    exists st'. split; [exact Hrun |].
    cbn [snd] in Hdata, Hcount, Hcol, Hout, Hin |- *.
    split; [exact Hdata |]. split; [exact Hcount |]. split; [exact Hcol |].
    split.
    + intros k Hk. cbn [List.length] in Hk.
      rewrite Hout by lia. apply setMatrixAt_other. lia.
    + intros j b lm' inst' Hj Hlm' Hinst'. destruct j as [| j].
      * injection Hj as <-. rewrite Hlm in Hlm'. injection Hlm' as <-.
        rewrite Nat.add_0_r in Hinst' |- *.
        rewrite Hinst in Hinst'. injection Hinst' as <-.
        rewrite Hout by lia. rewrite setMatrixAt_same. reflexivity.
      * replace (idx + S j)%nat with (S idx + j)%nat in * by lia.
        now apply Hin.
Qed.

Lemma forEachAnchor_fails (L : list Vector3) (insts : list InstanceData)
    (a : Anchor) :
  lookupZ L (landmarkIndex a) = None ->
  forall (anchors : list Anchor) (idx : nat) (st : Object3D * InstancedMesh),
    In a anchors -> forEachAnchor L insts anchors idx st = TypeError.
Proof.
  intros Hnone. induction anchors as [| b anchors IH]; intros idx st Hin.
  - contradiction.
  - cbn [forEachAnchor]. destruct Hin as [-> | Hin].
    + unfold updateStep. destruct st as [obj mesh]. now rewrite Hnone.
    + destruct (updateStep L insts b idx st) as [st' |]; cbn [bind];
        [now apply IH | reflexivity].
Qed.

(** X15.  On a bound store, a frame whose cloud contains the landmark of
    every anchor moves each instance and nothing else: slot [j] receives
    the landmark of anchor [j] plus the anchor's offset, with the rotation
    and the scale of the instance's rest pose; the colours, the slots past
    the table, the InstanceSet, the anchors and [tempColor] stay as they
    were. *)
Theorem update_keeps_rest_pose (s : Store) (mesh : InstancedMesh)
    (insts : list InstanceData) (anchors : list Anchor) (L : list Vector3) :
  meshRef s = Some mesh ->
  userData_instances mesh = Some insts ->
  anchorsRef s = Some anchors ->
  L <> [] ->
  List.length anchors = List.length insts ->
  (forall a, In a anchors ->
     exists lm, lookupZ L (landmarkIndex a) = Some lm) ->
  exists (s' : Store) (mesh' : InstancedMesh),
    useFrame (Some L) s = Ok s' /\
    meshRef s' = Some mesh' /\
    instanceSet s' = instanceSet s /\
    anchorsRef s' = anchorsRef s /\
    tempColor s' = tempColor s /\
    (forall k, instanceColor mesh' k = instanceColor mesh k) /\
    (forall k, (List.length anchors <= k)%nat ->
       instanceMatrix mesh' k = instanceMatrix mesh k) /\
    (forall j a lm inst,
       nth_error anchors j = Some a ->
       lookupZ L (landmarkIndex a) = Some lm ->
       nth_error insts j = Some inst ->
       instanceMatrix mesh' j
       = compose (Vec.addVectors lm (anchorOffset a))
           (FromUnitVectors upVec (inst_normal inst))
           (mkVector3 (inst_scale inst) (inst_scale inst)
              (inst_scale inst))).
Proof.
  intros Hmesh Hinsts Hanchors HL Hlen Hcover.
  destruct (forEachAnchor_effect L insts anchors 0 (tempObj s, mesh))
    as ([obj mesh'] & Hrun & Hdata & Hcount & Hcol & Hout & Hin).
  { intros j a Hj. split.
    - apply Hcover. eapply nth_error_In; eauto.
    - cbn [Nat.add].
      destruct (nth_error insts j) as [inst |] eqn:E; [now exists inst |].
      apply nth_error_None in E.
      assert (j < List.length anchors)%nat
        by (apply nth_error_Some; congruence).
      lia. }
  cbn [snd Nat.add] in Hdata, Hcount, Hcol, Hout, Hin.
  exists (mkStore obj (tempColor s) (Some mesh') (Some anchors)), mesh'.
  split.
  { unfold useFrame. rewrite Hmesh.
    destruct L as [| l0 L]; [contradiction |].
    rewrite Hinsts, Hanchors, Hrun. reflexivity. }
  split; [reflexivity |]. split.
  { unfold instanceSet. cbn [meshRef]. rewrite Hmesh, Hdata, Hcount.
    reflexivity. }
  split; [now rewrite Hanchors |]. split; [reflexivity |]. split.
  { intros k. now rewrite Hcol. }
  split; [| exact Hin].
  intros k Hk. apply Hout. right. exact Hk.
Qed.

Lemma update_keeps_rest_pose_witness :
  exists (s' : Store) (mesh' : InstancedMesh),
    useFrame (Some cloud1) usedStore = Ok s' /\
    meshRef s' = Some mesh' /\
    instanceSet s' = instanceSet usedStore /\
    instanceMatrix mesh' 0
    = compose (mkVector3 (5 + 0) (5 + 0) (5 + 1))
        (FromUnitVectors upVec (mkVector3 0 0 1)) (mkVector3 0.1 0.1 0.1).
Proof.
  destruct (update_keeps_rest_pose usedStore unboundMesh [staleInstance]
              [mkAnchor 0 (mkVector3 0 0 1) (mkVector3 0 0 1)] cloud1
              eq_refl eq_refl eq_refl)
    as (s' & mesh' & Hrun & Hm & Hset & _ & _ & _ & _ & Hin).
  - discriminate.
  - reflexivity.
  - intros a [<- | []]. now exists (mkVector3 5 5 5).
  - exists s', mesh'. split; [exact Hrun |]. split; [exact Hm |].
    split; [exact Hset |].
    exact (Hin 0%nat _ (mkVector3 5 5 5) staleInstance eq_refl eq_refl
             eq_refl).
Defined.

(** X16.  On a bound store, a frame with a non-empty cloud that lacks the
    landmark of some anchor (the anchor's index is negative or not below
    the number of landmarks) ends in a TypeError. *)
Theorem update_short_cloud_fails (s : Store) (mesh : InstancedMesh)
    (insts : list InstanceData) (anchors : list Anchor) (L : list Vector3)
    (a : Anchor) :
  meshRef s = Some mesh ->
  userData_instances mesh = Some insts ->
  anchorsRef s = Some anchors ->
  L <> [] ->
  In a anchors ->
  (landmarkIndex a < 0 \/ Z.of_nat (List.length L) <= landmarkIndex a)%Z ->
  useFrame (Some L) s = TypeError.
Proof.
  intros Hmesh Hinsts Hanchors HL Hin Hidx.
  assert (Hnone : lookupZ L (landmarkIndex a) = None).
  { unfold lookupZ. destruct (landmarkIndex a <? 0)%Z eqn:E; [reflexivity |].
    apply nth_error_None. lia. }
  unfold useFrame. rewrite Hmesh.
  destruct L as [| l0 L]; [contradiction |].
  rewrite Hinsts, Hanchors.
  now rewrite (forEachAnchor_fails (l0 :: L) insts a Hnone anchors 0
                 (tempObj s, mesh) Hin).
Qed.

Lemma update_short_cloud_fails_witness :
  useFrame (Some cloud1)
    (mkStore newObject3D newColor (Some unboundMesh)
       (Some [mkAnchor 1 (mkVector3 0 0 1) (mkVector3 0 0 1)]))
  = TypeError.
Proof.
  apply (update_short_cloud_fails _ unboundMesh [staleInstance]
           [mkAnchor 1 (mkVector3 0 0 1) (mkVector3 0 0 1)] cloud1
           (mkAnchor 1 (mkVector3 0 0 1) (mkVector3 0 0 1)));
    [reflexivity | reflexivity | reflexivity | discriminate
    | now left | right; cbn; lia].
Defined.



(** ** App: the animation loop *)

(** X18.  The value the animation loop writes into an animated field lies
    between the animation's [min] and [max] at every time, in whichever
    order the two bounds are given and for every speed. *)
Theorem animatedValue_range (anim : AnimationDef) (time : R) :
  Rmin (anim_min anim) (anim_max anim) <= animatedValue anim time
  <= Rmax (anim_min anim) (anim_max anim).
Proof.
  unfold animatedValue. pose proof (SIN_bound (time * speed anim)) as [Hl Hu].
  set (sine := sin (time * speed anim)) in *.
  assert (Hn : 0 <= (sine + 1) / 2 <= 1) by lra.
  set (norm := (sine + 1) / 2) in *.
  unfold Rmin, Rmax. destruct (Rle_dec (anim_min anim) (anim_max anim)); nra.
Qed.

(** ** FaceScanner: capture *)

Lemma sumLandmarks_centred (k cx cy cz : R) (l : list Vector3) :
  forall (m a b c : R),
    let '(sa, sb, sc) :=
      fold_left
        (fun (acc : R * R * R) (p : Vector3) =>
           let '(x, y, z) := acc in (x + vx p, y + vy p, z + vz p))
        l (a, b, c) in
    fold_left
      (fun (acc : R * R * R) (p : Vector3) =>
         let '(x, y, z) := acc in (x + vx p, y + vy p, z + vz p))
      (map (fun p => mkVector3 (- (vx p - cx) * k) (- (vy p - cy) * k)
                       ((vz p - cz) * k)) l)
      (- (a - m * cx) * k, - (b - m * cy) * k, (c - m * cz) * k)
    = (- (sa - (m + INR (List.length l)) * cx) * k,
       - (sb - (m + INR (List.length l)) * cy) * k,
       (sc - (m + INR (List.length l)) * cz) * k).
Proof.
  induction l as [| p l IH]; intros m a b c.
  - cbn [fold_left map List.length INR]. now rewrite !Rplus_0_r.
  - cbn [fold_left map vx vy vz].
    specialize (IH (m + 1) (a + vx p) (b + vy p) (c + vz p)).
    destruct (fold_left _ l (a + vx p, b + vy p, c + vz p)) as [[sa sb] sc].
    replace (- (a - m * cx) * k + - (vx p - cx) * k)
      with (- (a + vx p - (m + 1) * cx) * k) by ring.
    replace (- (b - m * cy) * k + - (vy p - cy) * k)
      with (- (b + vy p - (m + 1) * cy) * k) by ring.
    replace ((c - m * cz) * k + (vz p - cz) * k)
      with ((c + vz p - (m + 1) * cz) * k) by ring.
    rewrite IH. cbn [List.length]. rewrite S_INR.
    f_equal; [f_equal |]; ring.
Qed.

Lemma flat_map_flatten {A : Type} (f : A -> Vector3) (l : list A) :
  flat_map (fun a => [vx (f a); vy (f a); vz (f a)]) l = flatten (map f l).
Proof.
  unfold flatten. induction l as [| a l IH]; [reflexivity |].
  cbn [flat_map map app]. now rewrite IH.
Qed.

(** X19.  A capture taken from world landmarks is centred: the captured
    vertices are one point per landmark of the first face, and their
    coordinates sum to zero on each axis, so that their centroid is the
    origin. *)
Theorem capture_centred (results : FaceLandmarkerResult)
    (worldLandmarks : list Vector3) (others : list (list Vector3)) :
  faceWorldLandmarks results = Some (worldLandmarks :: others) ->
  worldLandmarks <> [] ->
  exists pts : list Vector3,
    handleCapture (Some results)
    = Some (flatten pts, computePointCloudNormals (flatten pts)) /\
    List.length pts = List.length worldLandmarks /\
    sumLandmarks pts = (0, 0, 0).
Proof.
  intros Hworld Hne.
  unfold handleCapture, captureVertices. rewrite Hworld.
  set (k := 12.0).
  pose proof (sumLandmarks_centred k
                (fst (fst (sumLandmarks worldLandmarks))
                 / INR (List.length worldLandmarks))
                (snd (fst (sumLandmarks worldLandmarks))
                 / INR (List.length worldLandmarks))
                (snd (sumLandmarks worldLandmarks)
                 / INR (List.length worldLandmarks))
                worldLandmarks 0 0 0 0) as Hsum.
  fold (sumLandmarks worldLandmarks) in Hsum.
  destruct (sumLandmarks worldLandmarks) as [[cx cy] cz].
  cbn [fst snd] in Hsum.
  set (len := INR (List.length worldLandmarks)) in *.
  assert (Hlen : len <> 0).
  { unfold len. destruct worldLandmarks; [contradiction |].
    apply not_0_INR. discriminate. }
  set (g := fun p : Vector3 =>
              mkVector3 (- (vx p - cx / len) * k) (- (vy p - cy / len) * k)
                ((vz p - cz / len) * k)) in *.
  exists (map g worldLandmarks).
  rewrite <- (flat_map_flatten g worldLandmarks). cbn [g vx vy vz].
  split.
  - destruct worldLandmarks as [| l0 rest]; [contradiction |].
    cbn [flat_map app List.length Nat.ltb Nat.leb]. reflexivity.
  - split; [apply length_map |].
    unfold sumLandmarks.
    replace (0, 0, 0)
      with (- (0 - 0 * (cx / len)) * k, - (0 - 0 * (cy / len)) * k,
            (0 - 0 * (cz / len)) * k)
      by (f_equal; [f_equal |]; ring).
    rewrite Hsum. f_equal; [f_equal |]; field; exact Hlen.
Qed.

Lemma capture_centred_witness :
  exists pts : list Vector3,
    handleCapture (Some (mkResult None (Some [cloud2])))
    = Some (flatten pts, computePointCloudNormals (flatten pts)) /\
    List.length pts = List.length cloud2 /\
    sumLandmarks pts = (0, 0, 0).
Proof.
  apply (capture_centred (mkResult None (Some [cloud2])) cloud2 []);
    [reflexivity | discriminate].
Defined.

(** X20.  Whenever a capture hands over a geometry, it was taken from a
    non-empty first face and the geometry's two arrays match: three
    position coordinates per landmark of that face, and as many normal
    coordinates as position coordinates.  The image landmarks are used
    only when there are no world landmarks. *)
Theorem capture_arrays (lastResult : option FaceLandmarkerResult)
    (position normal : list R) :
  handleCapture lastResult = Some (position, normal) ->
  exists (results : FaceLandmarkerResult) (face : list Vector3)
         (others : list (list Vector3)),
    lastResult = Some results /\
    face <> [] /\
    (faceWorldLandmarks results = Some (face :: others) \/
     (faceWorldLandmarks results = None \/
      faceWorldLandmarks results = Some []) /\
     faceLandmarks results = Some (face :: others)) /\
    List.length position = (3 * List.length face)%nat /\
    List.length normal = List.length position.
Proof.
  unfold handleCapture. destruct lastResult as [results |]; [| discriminate].
  destruct (0 <? List.length (captureVertices results))%nat eqn:Hpos;
    [| discriminate].
  intros E. injection E as <- <-. apply Nat.ltb_lt in Hpos.
  assert (Hflat : forall (f : Vector3 -> list R) (l : list Vector3),
            (forall p, List.length (f p) = 3%nat) ->
            List.length (flat_map f l) = (3 * List.length l)%nat).
  { intros f l Hf. induction l as [| p l IH]; [reflexivity |].
    cbn [flat_map List.length]. rewrite length_app, Hf, IH. lia. }
  unfold captureVertices in *.
  destruct (faceWorldLandmarks results) as [[| world others] |] eqn:Ew.
  - destruct (faceLandmarks results) as [[| face others] |] eqn:Ef;
      [cbn in Hpos; lia | | cbn in Hpos; lia].
    rewrite Hflat in Hpos by reflexivity.
    exists results, face, others. split; [reflexivity |].
    split; [destruct face; [cbn in Hpos; lia | discriminate] |].
    split; [right; auto |]. split; [now apply Hflat | apply length_normals].
  - destruct (sumLandmarks world) as [[cx cy] cz].
    rewrite Hflat in Hpos by reflexivity.
    exists results, world, others. split; [reflexivity |].
    split; [destruct world; [cbn in Hpos; lia | discriminate] |].
    split; [left; exact Ew |].
    split; [now apply Hflat | apply length_normals].
  - destruct (faceLandmarks results) as [[| face others] |] eqn:Ef;
      [cbn in Hpos; lia | | cbn in Hpos; lia].
    rewrite Hflat in Hpos by reflexivity.
    exists results, face, others. split; [reflexivity |].
    split; [destruct face; [cbn in Hpos; lia | discriminate] |].
    split; [right; auto |]. split; [now apply Hflat | apply length_normals].
Qed.

Lemma capture_arrays_witness :
  exists (position normal : list R) (face : list Vector3),
    handleCapture (Some (mkResult (Some [cloud1]) None))
    = Some (position, normal) /\
    List.length position = (3 * List.length face)%nat /\
    List.length normal = List.length position.
Proof.
  destruct (handleCapture (Some (mkResult (Some [cloud1]) None)))
    as [[position normal] |] eqn:E; [| discriminate].
  destruct (capture_arrays _ position normal E)
    as (results & face & others & _ & _ & _ & Hp & Hn).
  exists position, normal, face. now repeat split.
Defined.

(** ** GhostHead *)

Lemma fold_left_append {A B : Type} (g : A -> list B) (l : list A) :
  forall init : list B,
    fold_left (fun acc a => acc ++ g a) l init = init ++ flat_map g l.
Proof.
  induction l as [| a l IH]; intros init.
  - cbn. now rewrite app_nil_r.
  - cbn [fold_left flat_map]. rewrite IH. now rewrite app_assoc.
Qed.

(** X21.  With a custom mesh there is no procedural point cloud.  Without
    one the cloud holds 1000 points (3000 coordinates), and when every
    random draw lies in [0, 1) each point is the surface point
    [getFacePoint u v headWidth] of a pair [u], [v] in [-1, 1). *)
Theorem ghostPoints_on_surface (rand : nat -> R) (headWidth : R)
    (customMesh : option BufferGeometry) :
  (forall k, 0 <= rand k < 1) ->
  match ghostPoints rand headWidth customMesh with
  | None => customMesh <> None
  | Some pts =>
      customMesh = None /\
      List.length pts = 3000%nat /\
      forall i, (i < 1000)%nat ->
        exists u v : R,
          -1 <= u < 1 /\ -1 <= v < 1 /\
          pointAt pts i = getFacePoint u v headWidth
  end.
Proof.
  intros Hrand. unfold ghostPoints.
  destruct customMesh as [geometry |]; [discriminate |].
  split; [reflexivity |].
  change 3000%nat with (3 * 1000)%nat. set (count := 1000%nat).
  rewrite forLoop_seq, fold_left_append. cbn [app]. cbv zeta.
  set (f := fun i : nat =>
              getFacePoint (rand (2 * i)%nat * 2 - 1)
                (rand (2 * i + 1)%nat * 2 - 1) headWidth).
  change (flat_map _ (seq 0 count))
    with (flat_map (fun a => [vx (f a); vy (f a); vz (f a)]) (seq 0 count)).
  rewrite (flat_map_flatten f (seq 0 count)).
  split.
  - rewrite length_flatten, length_map, length_seq. reflexivity.
  - intros i Hi.
    exists (rand (2 * i)%nat * 2 - 1), (rand (2 * i + 1)%nat * 2 - 1).
    pose proof (Hrand (2 * i)%nat). pose proof (Hrand (2 * i + 1)%nat).
    split; [lra |]. split; [lra |].
    rewrite pointAt_flatten by (rewrite length_map, length_seq; exact Hi).
    rewrite (nth_indep _ Vec.zero (f 0%nat))
      by (rewrite length_map, length_seq; exact Hi).
    rewrite map_nth, seq_nth by exact Hi. reflexivity.
Qed.

Lemma ghostPoints_on_surface_witness :
  exists pts : list R,
    ghostPoints (fun _ => 0.5) 1.45 None = Some pts /\
    List.length pts = 3000%nat.
Proof.
  pose proof (ghostPoints_on_surface (fun _ => 0.5) 1.45 None) as Hg.
  destruct (ghostPoints (fun _ => 0.5) 1.45 None) as [pts |] eqn:E.
  - exists pts. split; [reflexivity |]. apply Hg. intros _. lra.
  - exfalso. apply Hg; [intros _; lra | reflexivity].
Defined.
